(** * Bridge seismic damage evaluation: model and verification

    A shallow embedding of the damage classifier
    ([model/damage_evaluator.py]), the analysis runner
    ([model/analysis_runner.py]), the orchestrator
    ([controller/bridge_evaluator.py]) and the plain evaluator
    ([controller/evaluator.py]).

    Numbers are real numbers ([R]): Python floats are read as the reals
    they approximate, so rounding, NaN and infinities are outside the
    model.  Python exceptions are values of [Py.exn], and a function that
    may raise returns a [Py.result]. *)

From Stdlib Require Import Reals Lra Lia.
From stdpp Require Import gmap strings pretty list fin_maps.

Open Scope R_scope.

(* ===================================================================== *)
(** * The Python layer: exceptions, results, dynamic values               *)
(* ===================================================================== *)

Module Py.

(** The exception classes the modelled code can meet.  [SolverError]
    stands for whatever the external OpenSees binding raises. *)
Inductive exn : Type :=
| KeyError (msg : string)
| IndexError (msg : string)
| TypeError (msg : string)
| AttributeError (msg : string)
| ValueError (msg : string)
| FileNotFoundError (msg : string)
| SolverError (msg : string).

(** [repr(k)] of a string key, as [KeyError] shows it. *)
Definition repr (k : string) : string := "'" +:+ k +:+ "'".

(** [str(e)]. *)
Definition str (e : exn) : string :=
  match e with
  | KeyError m | IndexError m | TypeError m | AttributeError m
  | ValueError m | FileNotFoundError m | SolverError m => m
  end.

Inductive result (A : Type) : Type :=
| Ok (a : A)
| Raise (e : exn).
Arguments Ok {A} a.
Arguments Raise {A} e.

#[global] Instance result_ret : MRet result := fun _ a => Ok a.
#[global] Instance result_bind : MBind result := fun _ _ f m =>
  match m with
  | Ok a => f a
  | Raise e => Raise e
  end.

(** [except (KeyError, IndexError, TypeError)]. *)
Definition is_lookup_error (e : exn) : bool :=
  match e with
  | KeyError _ | IndexError _ | TypeError _ => true
  | _ => false
  end.

(** [try: body  except <classes> as e: handler(e)]; an exception outside
    the listed classes propagates. *)
Definition try_except {A : Type} (body : result A) (catches : exn -> bool)
    (handler : exn -> result A) : result A :=
  match body with
  | Ok a => Ok a
  | Raise e => if catches e then handler e else Raise e
  end.

(** [except Exception]: every modelled class derives from it. *)
Definition any_exception (e : exn) : bool := true.

(** The values a raw static result can hold. *)
#[warnings="-register-all"]
Inductive value : Type :=
| VNone
| VFloat (x : R)
| VStr (s : string)
| VList (xs : list value)
| VDict (kvs : list (string * value)).

Fixpoint assoc {A : Type} (k : string) (kvs : list (string * A)) : option A :=
  match kvs with
  | [] => None
  | (k', v) :: rest => if String.eqb k k' then Some v else assoc k rest
  end.

(** [type(v).__name__]. *)
Definition type_name (v : value) : string :=
  match v with
  | VNone => "NoneType"
  | VFloat _ => "float"
  | VStr _ => "str"
  | VList _ => "list"
  | VDict _ => "dict"
  end.

(** [v[k]] for a string key [k]. *)
Definition getitem_str (v : value) (k : string) : result value :=
  match v with
  | VDict kvs =>
      match assoc k kvs with
      | Some x => Ok x
      | None => Raise (KeyError (repr k))
      end
  | VList _ => Raise (TypeError "list indices must be integers or slices, not str")
  | VStr _ => Raise (TypeError "string indices must be integers, not 'str'")
  | VFloat _ => Raise (TypeError "'float' object is not subscriptable")
  | VNone => Raise (TypeError "'NoneType' object is not subscriptable")
  end.

(** [v[i]] for a non-negative integer literal [i]. *)
Definition getitem_int (v : value) (i : nat) : result value :=
  match v with
  | VList xs =>
      match xs !! i with
      | Some x => Ok x
      | None => Raise (IndexError "list index out of range")
      end
  | VStr s =>
      match String.get i s with
      | Some c => Ok (VStr (String c EmptyString))
      | None => Raise (IndexError "string index out of range")
      end
  | VDict _ => Raise (KeyError "1")
  | VFloat _ => Raise (TypeError "'float' object is not subscriptable")
  | VNone => Raise (TypeError "'NoneType' object is not subscriptable")
  end.

End Py.
Import Py.

(* ===================================================================== *)
(** * The error function of the C library                                 *)
(* ===================================================================== *)

(** [np.math.erf] is the C library's [erf].  The model reads it as the
    error function itself, erf(x) = 2/sqrt(pi) * integral of exp(-t^2)
    from 0 to x. *)

Module Libm.

(** The integrand of the error function. *)
Definition gauss (t : R) : R := exp (- (t * t)).

Lemma gauss_continuity : continuity gauss.
Proof. unfold gauss. reg. Qed.

Lemma gauss_integrable (a b : R) : Riemann_integrable gauss a b.
Proof.
  destruct (Rle_dec a b) as [Hab|Hab].
  - apply continuity_implies_RiemannInt; [exact Hab|].
    intros x _. apply gauss_continuity.
  - apply RiemannInt_P1, continuity_implies_RiemannInt; [lra|].
    intros x _. apply gauss_continuity.
Qed.

(** The integral of [gauss] from 0 to [x]. *)
Definition gauss_int (x : R) : R := RiemannInt (gauss_integrable 0 x).

(** [math.erf]. *)
Definition math_erf (x : R) : R := 2 / sqrt PI * gauss_int x.

End Libm.

(* ===================================================================== *)
(** * Two-dimensional arrays and raw results                              *)
(* ===================================================================== *)

Module Np.

(** A two-dimensional numpy array, by rows.  Every row of an array has
    the same length ([rectangular]). *)
Abbreviation ndarray := (list (list R)).

(** [a.shape[1]] of an array with at least one row. *)
Definition shape1 (a : ndarray) : nat :=
  match a with
  | [] => 0
  | row :: _ => length row
  end.

Definition rectangular (a : ndarray) : Prop :=
  Forall (fun row => length row = shape1 a) a.

(** [a.size]. *)
Definition size (a : ndarray) : nat := (length a * shape1 a)%nat.

(** [np.zeros((rows, cols))]. *)
Definition zeros (rows cols : nat) : ndarray := replicate rows (replicate cols 0).

(** [z = np.zeros((len(a), width)); z[:, :k] = a[:, :k]] for
    [k = min(width, a.shape[1])]. *)
Definition pad_columns (width : nat) (a : ndarray) : ndarray :=
  let k := (width `min` shape1 a)%nat in
  (fun row => take k row ++ replicate (width - k) 0) <$> a.

(** The entries of column [j], row by row. *)
Definition column_values (a : ndarray) (j : nat) : list R :=
  (fun row => nth j row 0) <$> a.

(** [a[:, j]]; an index past the last column raises. *)
Definition column (a : ndarray) (j : nat) : result (list R) :=
  if decide (j < shape1 a)%nat
  then Ok (column_values a j)
  else Raise (IndexError "index is out of bounds for axis 1").

(** [a[:, lo:hi]]: a slice never raises. *)
Definition columns (a : ndarray) (lo hi : nat) : ndarray :=
  (fun row => take (hi - lo) (drop lo row)) <$> a.

(** [np.max(np.abs(xs))] of a non-empty vector; 0 stands for the value the
    callers give an empty one. *)
Definition max_abs (xs : list R) : R :=
  match xs with
  | [] => 0
  | x :: rest => foldl Rmax (Rabs x) (Rabs <$> rest)
  end.

(** [np.max(np.abs(a), axis=0)]: one maximum per column. *)
Definition max_abs_axis0 (a : ndarray) : list R :=
  (fun j => max_abs (column_values a j)) <$> seq 0 (shape1 a).

(** [v[i]] on a vector. *)
Definition item (v : list R) (i : nat) : result R :=
  match v !! i with
  | Some x => Ok x
  | None => Raise (IndexError "index is out of bounds for axis 0")
  end.

End Np.

Module Results.

(** [results["modal"]] as [run_modal_analysis] stores it. *)
Record modal_entry : Type := ModalEntry {
  periods : list R;
  frequencies : list R;
  eigen_values : option (list R);
  modal_error : option string
}.

(** [results["time_history"]] as [run_time_history_analysis] stores it. *)
Record time_history_entry : Type := TimeHistoryEntry {
  displacements : Np.ndarray;
  element_forces : Np.ndarray;
  time_points : list R;
  th_error : option string
}.

(** [AnalysisRunner.results]: a dictionary with at most the keys
    "static", "modal" and "time_history"; [None] is an absent key. *)
Record analysis_results : Type := AnalysisResults {
  static : option Py.value;
  modal : option modal_entry;
  time_history : option time_history_entry
}.

Definition empty : analysis_results := AnalysisResults None None None.

End Results.

(* ===================================================================== *)
(** * model/damage_evaluator.py                                           *)
(* ===================================================================== *)

Module DamageEvaluator.

(** [class DamageState(Enum)]. *)
Inductive DamageState : Type :=
| NO_DAMAGE
| SLIGHT
| MODERATE
| EXTENSIVE
| COMPLETE.

#[global] Instance DamageState_eq_dec : EqDecision DamageState.
Proof. solve_decision. Defined.

(** [state.value]. *)
Definition value (s : DamageState) : nat :=
  match s with
  | NO_DAMAGE => 0
  | SLIGHT => 1
  | MODERATE => 2
  | EXTENSIVE => 3
  | COMPLETE => 4
  end.

(** [DamageState(v)]: lookup by value. *)
Definition of_value (v : nat) : result DamageState :=
  match v with
  | 0%nat => Ok NO_DAMAGE
  | 1%nat => Ok SLIGHT
  | 2%nat => Ok MODERATE
  | 3%nat => Ok EXTENSIVE
  | 4%nat => Ok COMPLETE
  | _ => Raise (ValueError (pretty v +:+ " is not a valid DamageState"))
  end.

#[global] Instance DamageState_countable : Countable DamageState.
Proof.
  refine (inj_countable' value
            (fun n => match of_value n with Ok s => s | Raise _ => NO_DAMAGE end) _).
  by intros [].
Defined.

(** [state.name]. *)
Definition name (s : DamageState) : string :=
  match s with
  | NO_DAMAGE => "NO_DAMAGE"
  | SLIGHT => "SLIGHT"
  | MODERATE => "MODERATE"
  | EXTENSIVE => "EXTENSIVE"
  | COMPLETE => "COMPLETE"
  end.

(** [list(DamageState)]: the members in definition order. *)
Definition members : list DamageState :=
  [NO_DAMAGE; SLIGHT; MODERATE; EXTENSIVE; COMPLETE].

(** The parameters of one fragility curve, [{"median": m, "beta": b}]: a
    dictionary that holds both keys, with numbers as values. *)
Record curve : Type := Curve { median : R; beta : R }.

(** [fragility_params]: component type -> damage state -> curve. *)
Abbreviation fragility := (gmap DamageState curve).
Abbreviation fragility_params := (gmap string (gmap DamageState curve)).

Definition pier_drift_default : fragility :=
  <[SLIGHT := Curve 0.005 0.6]>
  (<[MODERATE := Curve 0.01 0.6]>
  (<[EXTENSIVE := Curve 0.025 0.6]>
  (<[COMPLETE := Curve 0.05 0.6]> ∅))).

Definition deck_disp_default : fragility :=
  <[SLIGHT := Curve 0.02 0.6]>
  (<[MODERATE := Curve 0.05 0.6]>
  (<[EXTENSIVE := Curve 0.1 0.6]>
  (<[COMPLETE := Curve 0.3 0.6]> ∅))).

Definition default_fragility : fragility_params :=
  <["pier_drift" := pier_drift_default]>
  (<["deck_disp" := deck_disp_default]> ∅).

(** [DamageEvaluator.__init__]: a missing or empty parameter dictionary
    (both are falsy) selects the defaults. *)
Definition init (params : option fragility_params) : fragility_params :=
  match params with
  | Some p => if bool_decide (size p = 0%nat) then default_fragility else p
  | None => default_fragility
  end.

(** [self.fragility_params[component_type]]. *)
Definition component (self : fragility_params) (component_type : string)
    : result fragility :=
  match self !! component_type with
  | Some f => Ok f
  | None => Raise (KeyError (repr component_type))
  end.

(** The loop of [_evaluate_damage_state] over the remaining states. *)
Fixpoint scan_states (f : fragility) (demand : R) (states : list DamageState)
    : DamageState :=
  match states with
  | [] => NO_DAMAGE
  | state :: rest =>
      if decide (state = NO_DAMAGE) then state
      else match f !! state with
           | Some c =>
               if Rge_dec demand (median c) then state
               else scan_states f demand rest
           | None => scan_states f demand rest
           end
  end.

Definition _evaluate_damage_state (self : fragility_params)
    (component_type : string) (demand : R) : result DamageState :=
  f ← component self component_type;
  mret (scan_states f demand (reverse members)).

Definition _standard_normal_cdf (x : R) : R :=
  0.5 * (1 + Libm.math_erf (x / sqrt 2)).

(** The first loop of [_calculate_damage_probabilities]: the exceedance
    probability of every state that has a curve, keyed by state name. *)
Definition exceedance_step (f : fragility) (demand : R)
    (probabilities : gmap string R) (state : DamageState) : gmap string R :=
  if decide (state = NO_DAMAGE) then probabilities
  else match f !! state with
       | Some c =>
           let prob :=
             if Rgt_dec demand 0
             then _standard_normal_cdf (ln (demand / median c) / beta c)
             else 0 in
           <[name state := prob]> probabilities
       | None => probabilities
       end.

Definition exceedance (f : fragility) (demand : R) : gmap string R :=
  foldl (exceedance_step f demand) ∅ members.

(** [probabilities.get(key, 0.0)]. *)
Definition get0 (probabilities : gmap string R) (key : string) : R :=
  default 0 (probabilities !! key).

(** The second loop: the probability of being in exactly each state. *)
Definition conditional_step (probabilities : gmap string R)
    (acc : result (gmap string R)) (state : DamageState)
    : result (gmap string R) :=
  conditional_probs ← acc;
  if decide (state = NO_DAMAGE) then
    mret (<[name state := 1 - get0 probabilities (name SLIGHT)]> conditional_probs)
  else if decide (state = COMPLETE) then
    mret (<[name state := get0 probabilities (name state)]> conditional_probs)
  else
    let current_prob := get0 probabilities (name state) in
    next_state ← of_value (value state + 1);
    let next_prob := get0 probabilities (name next_state) in
    mret (<[name state := current_prob - next_prob]> conditional_probs).

Definition _calculate_damage_probabilities (self : fragility_params)
    (component_type : string) (demand : R) : result (gmap string R) :=
  f ← component self component_type;
  foldl (conditional_step (exceedance f demand)) (Ok ∅) members.

(** ** [evaluate_damage_from_results] *)

(** [damage_result["static"]]. *)
Record static_damage : Type := StaticDamage {
  deck_displacement : R;
  damage_state : DamageState;
  static_error : option string
}.

(** [damage_result["time_history"]]. *)
Record time_history_damage : Type := TimeHistoryDamage {
  max_pier_drift : R;
  max_deck_displacement : list R;
  pier_damage_state : DamageState;
  deck_damage_state : DamageState;
  overall_damage_state : DamageState;
  pier_damage_probabilities : gmap string R;
  deck_damage_probabilities : gmap string R;
  time_history_error : option string
}.

Record damage_result : Type := DamageResult {
  dr_static : option static_damage;
  dr_time_history : option time_history_damage
}.

(** [{state.name: 0.0 for state in DamageState}]. *)
Definition zero_probabilities : gmap string R :=
  foldl (fun acc state => <[name state := 0]> acc) ∅ members.

(** The record both fallbacks of the time-history branch store. *)
Definition no_time_history_damage (message : string) : time_history_damage :=
  {| max_pier_drift := 0;
     max_deck_displacement := [0; 0; 0];
     pier_damage_state := NO_DAMAGE;
     deck_damage_state := NO_DAMAGE;
     overall_damage_state := NO_DAMAGE;
     pier_damage_probabilities := zero_probabilities;
     deck_damage_probabilities := zero_probabilities;
     time_history_error := Some message |}.

(** [max(a, b, key=lambda x: x.value)]: the first of the largest. *)
Definition max_by_value (a b : DamageState) : DamageState :=
  if decide (value a < value b)%nat then b else a.

(** The body of the [try] of the static branch. *)
Definition static_body (self : fragility_params) (static_result : Py.value)
    : result static_damage :=
  by_phase ← getitem_str static_result "displacements";
  by_node ← getitem_str by_phase "node5";
  static_disp ← getitem_int by_node 1;
  match static_disp with
  | VFloat x =>
      state ← _evaluate_damage_state self "deck_disp" (Rabs x);
      mret {| deck_displacement := x; damage_state := state;
              static_error := None |}
  | _ => Raise (TypeError ("bad operand type for abs(): '"
                           +:+ type_name static_disp +:+ "'"))
  end.

Definition evaluate_static (self : fragility_params) (static_result : Py.value)
    : result static_damage :=
  try_except (static_body self static_result) is_lookup_error
    (fun e => mret {| deck_displacement := 0; damage_state := NO_DAMAGE;
                      static_error := Some (str e) |}).

(** The width check of the time-history branch: an array with fewer than
    16 columns is copied into an array of zeros of that width. *)
Definition disp_array_of (displacements : Np.ndarray) : Np.ndarray :=
  if decide (Np.shape1 displacements < 16)%nat
  then Np.pad_columns 16 displacements
  else displacements.

(** The body of the [try] of the time-history branch. *)
Definition time_history_body (self : fragility_params)
    (th_results : Results.time_history_entry) (pier_height : R)
    : result time_history_damage :=
  let displacements := Results.displacements th_results in
  if decide (length displacements <= 1)%nat then
    mret (no_time_history_damage "时程分析结果无效或为空")
  else
    let disp_array := disp_array_of displacements in
    node3_disp_x ← Np.column disp_array 4;
    let deck_disp := Np.columns disp_array 13 16 in
    let max_deck_disp :=
      if decide (0 < length deck_disp)%nat
      then Np.max_abs_axis0 deck_disp else [0; 0; 0] in
    let max_drift :=
      if decide (0 < length node3_disp_x)%nat
      then Np.max_abs node3_disp_x / pier_height else 0 in
    pier_damage_state ← _evaluate_damage_state self "pier_drift" max_drift;
    deck_demand ← Np.item max_deck_disp 1;
    deck_damage_state ← _evaluate_damage_state self "deck_disp" deck_demand;
    let overall_damage := max_by_value pier_damage_state deck_damage_state in
    pier_damage_probs ← _calculate_damage_probabilities self "pier_drift" max_drift;
    deck_damage_probs ← _calculate_damage_probabilities self "deck_disp" deck_demand;
    mret {| max_pier_drift := max_drift;
            max_deck_displacement := max_deck_disp;
            pier_damage_state := pier_damage_state;
            deck_damage_state := deck_damage_state;
            overall_damage_state := overall_damage;
            pier_damage_probabilities := pier_damage_probs;
            deck_damage_probabilities := deck_damage_probs;
            time_history_error := None |}.

Definition evaluate_time_history (self : fragility_params)
    (th_results : Results.time_history_entry) (pier_height : R)
    : result time_history_damage :=
  try_except (time_history_body self th_results pier_height) any_exception
    (fun e => mret (no_time_history_damage (str e))).

(** [if key in analysis_results: ...]: run [f] on an entry that is there. *)
Definition when_present {A B : Type} (entry : option A) (f : A -> result B)
    : result (option B) :=
  match entry with
  | Some a => b ← f a; mret (Some b)
  | None => mret None
  end.

(** The [return damage_result] inside the time-history branch leaves the
    function where the branch would end anyway. *)
Definition evaluate_damage_from_results (self : fragility_params)
    (analysis_results : Results.analysis_results) (pier_height : R)
    : result damage_result :=
  static ← when_present (Results.static analysis_results) (evaluate_static self);
  time_history ← when_present (Results.time_history analysis_results)
                   (fun th => evaluate_time_history self th pier_height);
  mret {| dr_static := static; dr_time_history := time_history |}.

(** ** [get_damage_description] *)

(** The table of [get_damage_description]. *)
Definition descriptions : gmap DamageState string :=
  <[NO_DAMAGE := "无损伤"]>
  (<[SLIGHT := "轻微损伤：出现细小裂缝，不影响结构功能"]>
  (<[MODERATE := "中等损伤：明显裂缝，混凝土保护层剥落，可能需要维修"]>
  (<[EXTENSIVE := "严重损伤：大面积混凝土剥落，钢筋裸露，需要重大维修"]>
  (<[COMPLETE := "完全损伤：结构失效或接近失效，需要重建"]> ∅)))).

(** [descriptions.get(damage_state, "未知损伤状态")]. *)
Definition get_damage_description (damage_state : DamageState) : string :=
  default "未知损伤状态" (descriptions !! damage_state).

End DamageEvaluator.

(* ===================================================================== *)
(** * model/analysis_runner.py                                            *)
(* ===================================================================== *)

Module AnalysisRunner.
Import Results.

(** What the external structural engine (OpenSees, the file system) does
    during one run, call by call.  The engine is process-global and
    mutable, so every outcome is free; an outcome is read only if its call
    is reached. *)
Record engine : Type := Engine {
  (** [bridge_model.build_in_opensees()] before each phase. *)
  build_static : result unit;
  build_modal : result unit;
  build_time_history : result unit;
  (** The [ops] calls of [run_static_analysis], up to [ops.nodeDisp(5)]. *)
  static_solve : result Py.value;
  (** [ops.system('FullGeneral'); ops.eigen(num_modes)]. *)
  eigen_solve : result (list R);
  (** The existence check and [np.loadtxt] of the ground-motion file. *)
  load_ground_motion : result (list R);
  (** The [try] body of [run_time_history_analysis] up to the arrays read
      back from the recorder files: (disp_data, force_data). *)
  transient_solve : result (Np.ndarray * Np.ndarray);
  (** [ops.remove('recorders')] and the removal of the recorder files. *)
  cleanup : result unit
}.

(** A method of the runner: it reads and updates [self.results] and
    returns or raises. *)
Definition M (A : Type) : Type :=
  analysis_results -> analysis_results * result A.

#[global] Instance M_ret : MRet M := fun _ a results => (results, Ok a).
#[global] Instance M_bind : MBind M := fun _ _ f m results =>
  match m results with
  | (results', Ok a) => f a results'
  | (results', Raise e) => (results', Raise e)
  end.

Definition lift {A : Type} (r : result A) : M A := fun results => (results, r).

Definition modify (f : analysis_results -> analysis_results) : M unit :=
  fun results => (f results, Ok ()).

(** [try: body  except Exception as e: handler(e)]: what the body stored
    before it raised stays stored. *)
Definition catch {A : Type} (body : M A) (handler : exn -> M A) : M A :=
  fun results =>
    match body results with
    | (results', Ok a) => (results', Ok a)
    | (results', Raise e) => handler e results'
    end.

Definition set_static (v : Py.value) (r : analysis_results) : analysis_results :=
  {| static := Some v; modal := modal r; time_history := time_history r |}.

Definition set_modal (m : modal_entry) (r : analysis_results) : analysis_results :=
  {| static := static r; modal := Some m; time_history := time_history r |}.

Definition set_time_history (t : time_history_entry) (r : analysis_results)
    : analysis_results :=
  {| static := static r; modal := modal r; time_history := Some t |}.

Section Runner.

Variable ops : engine.

(** [run_static_analysis]: the result is stored before the vertical
    displacement [disp_node5[1]] is taken for the return value. *)
Definition run_static_analysis (load_magnitude : R) : M Py.value :=
  disp_node5 ← lift (static_solve ops);
  _ ← modify (set_static
                (VDict [("displacements", VDict [("node5", disp_node5)])]));
  lift (getitem_int disp_node5 1).

(** The period of mode [i]; an index past the eigenvalues is the inner
    [except] that appends 0. *)
Definition period_of (eigen_values : list R) (i : nat) : R :=
  match eigen_values !! i with
  | Some ev => if Rgt_dec ev 0 then 2 * PI / sqrt ev else 0
  | None => 0
  end.

(** [[0.5, 0.3, 0.1][:num_modes]]. *)
Definition default_periods (num_modes : nat) : list R :=
  take num_modes [0.5; 0.3; 0.1].

(** [run_modal_analysis]: a failure of the eigen-solve is caught inside
    and answered with the default periods and an error text. *)
Definition run_modal_analysis (num_modes : nat) : M (list R) :=
  catch
    (eigen_values ← lift (eigen_solve ops);
     let periods := period_of eigen_values <$> seq 0 num_modes in
     _ ← modify (set_modal
            {| periods := periods;
               frequencies := (fun t => if Rgt_dec t 0 then 1 / t else 0) <$> periods;
               eigen_values := Some eigen_values;
               modal_error := None |});
     mret periods)
    (fun e =>
       let periods := default_periods num_modes in
       _ ← modify (set_modal
              {| periods := periods;
                 frequencies := (fun t => 1 / t) <$> periods;
                 eigen_values := None;
                 modal_error := Some (str e) |});
       mret periods).

(** The entry the [except] of [run_time_history_analysis] stores. *)
Definition failed_time_history (e : exn) : time_history_entry :=
  {| displacements := Np.zeros 1 16;
     element_forces := Np.zeros 1 13;
     time_points := [0];
     th_error := Some (str e) |}.

(** [run_time_history_analysis]: a missing or unreadable ground-motion
    file raises to the caller; any later failure is caught inside and
    answered with arrays of zeros and an error text. *)
Definition run_time_history_analysis (ground_motion_file : string) (dt : R)
    (analysis_dt : R) (total_time : option R) : M time_history_entry :=
  acc_data ← lift (load_ground_motion ops);
  let total_time := default ((INR (length acc_data) - 1) * dt) total_time in
  catch
    ('(disp_data, force_data) ← lift (transient_solve ops);
     let disp_data :=
       if decide (Np.size disp_data = 0%nat) then Np.zeros 1 16 else disp_data in
     let force_data :=
       if decide (Np.size force_data = 0%nat) then Np.zeros 1 13 else force_data in
     time_points ← lift (Np.column disp_data 0);
     let entry := {| displacements := disp_data;
                     element_forces := force_data;
                     time_points := time_points;
                     th_error := None |} in
     _ ← modify (set_time_history entry);
     _ ← lift (cleanup ops);
     mret entry)
    (fun e =>
       _ ← modify (set_time_history (failed_time_history e));
       mret (failed_time_history e)).

(** [get_results]. *)
Definition get_results : M analysis_results :=
  fun results => (results, Ok results).

End Runner.

End AnalysisRunner.

(* ===================================================================== *)
(** * controller/bridge_evaluator.py                                      *)
(* ===================================================================== *)

Module BridgeEvaluator.
Import Results DamageEvaluator AnalysisRunner.

(** The configuration dictionary; [None] is an absent key. *)
Record ground_motion_config : Type := GroundMotionConfig {
  file : option string;
  dt : option R;
  duration : option R
}.

Record analysis_config : Type := AnalysisConfig {
  static_load : option R;
  ground_motion : option ground_motion_config
}.

Record output_config : Type := OutputConfig {
  save_results : option bool;
  result_file : option string
}.

Record config : Type := Config {
  span : option R;
  height : option R;
  material : option (list (string * R));
  analysis : option analysis_config;
  num_modes : option nat;
  (** component type -> damage-state name -> curve, in document order. *)
  fragility : option (list (string * list (string * curve)));
  output : option output_config
}.

(** [bool(config_dict)]: a dictionary with no key is falsy. *)
Definition truthy (c : config) : bool :=
  bool_decide (is_Some (span c)) || bool_decide (is_Some (height c))
  || bool_decide (is_Some (material c)) || bool_decide (is_Some (analysis c))
  || bool_decide (is_Some (num_modes c)) || bool_decide (is_Some (fragility c))
  || bool_decide (is_Some (output c)).

(** [d[key]] on an optional field. *)
Definition require {A : Type} (key : string) (field : option A) : result A :=
  match field with
  | Some a => Ok a
  | None => Raise (KeyError (repr key))
  end.

(** [c.upper()] on an ASCII character; a string is its sequence of bytes,
    and [upper] below is [str.upper] on ASCII strings. *)
Definition upper_ascii (c : Ascii.ascii) : Ascii.ascii :=
  let n := Ascii.nat_of_ascii c in
  if (97 <=? n)%nat && (n <=? 122)%nat then Ascii.ascii_of_nat (n - 32) else c.

(** [s.upper()]. *)
Fixpoint upper (s : string) : string :=
  match s with
  | EmptyString => EmptyString
  | String c rest => String (upper_ascii c) (upper rest)
  end.

(** [getattr(DamageState, attr)] for an upper-case [attr]: the members are
    the only upper-case attributes of the class. *)
Definition getattr_DamageState (attr : string) : result DamageState :=
  match List.find (fun state => String.eqb (name state) attr) members with
  | Some state => Ok state
  | None => Raise (AttributeError attr)
  end.

(** The inner loop of [_convert_fragility_config]. *)
Definition convert_levels (damage_levels : list (string * curve))
    : result (gmap DamageState curve) :=
  foldl (fun acc '(damage_name, params) =>
           converted ← acc;
           damage_state ← getattr_DamageState (upper damage_name);
           mret (<[damage_state := params]> converted))
        (Ok ∅) damage_levels.

(** The outer loop. *)
Definition convert_components
    (components : list (string * list (string * curve)))
    : result (gmap string (gmap DamageState curve)) :=
  foldl (fun acc '(component_type, damage_levels) =>
           fragility_config ← acc;
           converted ← convert_levels damage_levels;
           mret (<[component_type := converted]> fragility_config))
        (Ok ∅) components.

Definition _convert_fragility_config (c : config)
    : result (option (gmap string (gmap DamageState curve))) :=
  match fragility c with
  | None => Ok None
  | Some components =>
      fragility_config ← convert_components components;
      mret (Some fragility_config)
  end.

(** The evaluator: its configuration, the curves of its damage evaluator
    and the results its analysis runner has accumulated. *)
Record evaluator : Type := Evaluator {
  self_config : config;
  damage_evaluator : gmap string (gmap DamageState curve);
  analysis_runner : analysis_results
}.

Definition _initialize_components (c : config) : result evaluator :=
  _ ← require "span" (span c);
  _ ← require "height" (height c);
  _ ← require "material" (material c);
  fragility_params ← _convert_fragility_config c;
  mret {| self_config := c;
          damage_evaluator := DamageEvaluator.init fragility_params;
          analysis_runner := Results.empty |}.

(** [BridgeEvaluator(config_dict=...)]; the file path is left out. *)
Definition init (config_dict : option config) : result evaluator :=
  match config_dict with
  | Some c =>
      if truthy c then _initialize_components c
      else Raise (ValueError "必须提供配置文件路径或配置字典")
  | None => Raise (ValueError "必须提供配置文件路径或配置字典")
  end.

(** The choice of the analysis types at the head of [run_analysis]. *)
Definition select_analysis_types (c : config)
    (analysis_types : option (list string)) : list string :=
  match analysis_types with
  | Some types => types
  | None =>
      match analysis c with
      | Some a =>
          (if static_load a is Some _ then ["static"] else [])
          ++ (if ground_motion a is Some _ then ["time_history"] else [])
          ++ ["modal"]
      | None => []
      end
  end.

(** [if name in analysis_types: try: body  except Exception: log]. *)
Definition phase (phase_name : string) (analysis_types : list string)
    (body : M unit) : M unit :=
  if bool_decide (phase_name ∈ analysis_types)
  then catch body (fun _ => mret ())
  else mret ().

(** [results["damage"]]: the assessment, or the text of the failure. *)
Inductive damage_entry : Type :=
| Damage (d : damage_result)
| DamageFailed (message : string).

Record summary : Type := Summary {
  total_analysis_time : R;
  summary_config : config
}.

(** [self.results], the value [run_analysis] returns. *)
Record run_results : Type := RunResults {
  results_analysis : analysis_results;
  results_damage : damage_entry;
  results_summary : summary
}.

Section Run.

Variable ops : engine.
(** The two readings of [time.time()]. *)
Variables start_time end_time : R.

Definition static_phase (c : config) : M unit :=
  _ ← lift (build_static ops);
  a ← lift (require "analysis" (analysis c));
  let static_load := default 100 (static_load a) in
  _ ← run_static_analysis ops static_load;
  mret ().

Definition modal_phase (c : config) : M unit :=
  _ ← lift (build_modal ops);
  let num_modes := default 3%nat (num_modes c) in
  _ ← run_modal_analysis ops num_modes;
  mret ().

(** The maximum of the recorded displacements is computed for the log
    only; it reads columns of a rectangular array and cannot fail. *)
Definition time_history_phase (c : config) : M unit :=
  _ ← lift (build_time_history ops);
  a ← lift (require "analysis" (analysis c));
  gm_config ← lift (require "ground_motion" (ground_motion a));
  gm_file ← lift (require "file" (file gm_config));
  dt ← lift (require "dt" (dt gm_config));
  _ ← run_time_history_analysis ops gm_file dt (dt / 2) (duration gm_config);
  mret ().

(** The damage step: [try: evaluate  except Exception as e: error]. *)
Definition damage_step (self : evaluator) (raw : analysis_results) : damage_entry :=
  match (pier_height ← require "height" (height (self_config self));
         evaluate_damage_from_results (damage_evaluator self) raw pier_height)
  with
  | Ok d => Damage d
  | Raise e => DamageFailed (str e)
  end.

(** [run_analysis].  Writing the result file, when the configuration asks
    for it, does not change the returned value and catches its own
    failures; the file system is left out. *)
Definition run_analysis (self : evaluator) (analysis_types : option (list string))
    : evaluator * result run_results :=
  let c := self_config self in
  let types := select_analysis_types c analysis_types in
  let run : M run_results :=
    _ ← phase "static" types (static_phase c);
    _ ← phase "modal" types (modal_phase c);
    _ ← phase "time_history" types (time_history_phase c);
    raw ← get_results;
    mret {| results_analysis := raw;
            results_damage := damage_step self raw;
            results_summary :=
              {| total_analysis_time := end_time - start_time;
                 summary_config := c |} |} in
  let '(raw, outcome) := run (analysis_runner self) in
  ({| self_config := c;
      damage_evaluator := damage_evaluator self;
      analysis_runner := raw |}, outcome).

End Run.

(** ** [get_damage_summary] *)

Section Summary.

(** The text of a float under the format specifications [.6f] and [.2%]. *)
Variables format_6f format_2pct : R -> string.

(** ["\n".join(summary)]. *)
Definition join_lines (summary : list string) : string :=
  String.concat (String (Ascii.ascii_of_nat 10) EmptyString) summary.

(** [probs.items()]: the probability dictionaries of a damage record are
    filled in the order of the enumeration, one entry per state name. *)
Definition items (probs : gmap string R) : list (string * R) :=
  omap (fun state => (fun prob => (name state, prob)) <$> probs !! name state)
       members.

Definition probability_lines (probs : gmap string R) : list string :=
  (fun '(state, prob) => "  - " +:+ state +:+ ": " +:+ format_2pct prob)
    <$> items probs.

(** The branch [if 'time_history' in damage_results]. *)
Definition time_history_lines (th_damage : time_history_damage) : list string :=
  match time_history_error th_damage with
  | Some error => ["损伤评估出错: " +:+ error]
  | None =>
      let overall_state := overall_damage_state th_damage in
      let description := get_damage_description overall_state in
      ["整体损伤状态: " +:+ name overall_state;
       "损伤描述: " +:+ description;
       "墩柱最大层间位移角: " +:+ format_6f (max_pier_drift th_damage);
       "墩柱各损伤状态概率:"]
      ++ probability_lines (pier_damage_probabilities th_damage)
      ++ ["桥面板各损伤状态概率:"]
      ++ probability_lines (deck_damage_probabilities th_damage)
  end.

(** The branch [elif 'static' in damage_results]. *)
Definition static_lines (static_damage : static_damage) : list string :=
  match static_error static_damage with
  | Some error => ["静力分析损伤评估出错: " +:+ error]
  | None =>
      let state := damage_state static_damage in
      let description := get_damage_description state in
      ["静力分析损伤状态: " +:+ name state;
       "损伤描述: " +:+ description;
       "桥面板最大位移: " +:+ format_6f (deck_displacement static_damage)]
  end.

(** [get_damage_summary]: [self.results] is empty before the first run and
    afterwards the value [run_analysis] returned.  A failed damage step
    left [{"error": ...}], which has neither of the two keys. *)
Definition get_damage_summary (results : option run_results) : string :=
  match results with
  | None => "尚未进行损伤评估"
  | Some r =>
      join_lines
        match results_damage r with
        | Damage damage_results =>
            match dr_time_history damage_results, dr_static damage_results with
            | Some th_damage, _ => time_history_lines th_damage
            | None, Some static_damage => static_lines static_damage
            | None, None => ["未进行损伤评估或损伤评估结果为空"]
            end
        | DamageFailed _ => ["未进行损伤评估或损伤评估结果为空"]
        end
  end.

End Summary.

(** ** [_save_results] *)

(** The objects [self.results] can hold, as [convert_to_serializable]
    tells them apart: numpy arrays of one and two dimensions, members of
    [DamageState], instances of a class (objects with a [__dict__]) and
    the built-in values. *)
#[warnings="-register-all"]
Inductive obj : Type :=
| ONone
| OBool (b : bool)
| OInt (n : Z)
| OFloat (x : R)
| OStr (s : string)
| OList (elements : list obj)
| ODict (entries : list (string * obj))
| OArray (a : list R)
| OMatrix (a : Np.ndarray)
| OState (state : DamageState)
| OInstance (attributes : list (string * obj)).

(** [a.tolist()]. *)
Definition tolist1 (a : list R) : obj := OList (OFloat <$> a).
Definition tolist2 (a : Np.ndarray) : obj := OList (tolist1 <$> a).

Section SaveResults.

(** [str(obj)] on a built-in value. *)
Variable py_str : obj -> string.

(** The inner function [convert_to_serializable]. *)
Definition convert_to_serializable (o : obj) : obj :=
  match o with
  | OArray a => tolist1 a
  | OMatrix a => tolist2 a
  | OState state => OStr (name state)
  | OInstance attributes => ODict attributes
  | _ => OStr (py_str o)
  end.

(** What the loop of [process_dict] stores for one value [v]; the
    recursion on a dictionary goes through its values. *)
Fixpoint process_value (v : obj) : obj :=
  match v with
  | ODict entries => ODict ((fun kv => (kv.1, process_value kv.2)) <$> entries)
  | OList elements => OList (convert_to_serializable <$> elements)
  | _ => convert_to_serializable v
  end.

(** The inner function [process_dict]. *)
Definition process_dict (d : list (string * obj)) : list (string * obj) :=
  (fun kv => (kv.1, process_value kv.2)) <$> d.

End SaveResults.

End BridgeEvaluator.

(* ===================================================================== *)
(** * controller/evaluator.py                                             *)
(* ===================================================================== *)

Module Evaluator.
Import Results AnalysisRunner.

(** [Evaluator.__init__]: the three keys are read in this order. *)
Definition init (config : BridgeEvaluator.config) : result BridgeEvaluator.config :=
  _ ← BridgeEvaluator.require "span" (BridgeEvaluator.span config);
  _ ← BridgeEvaluator.require "height" (BridgeEvaluator.height config);
  _ ← BridgeEvaluator.require "material" (BridgeEvaluator.material config);
  mret config.

(** [Evaluator.run]: build the model, run the static analysis with its
    default load and print the displacement. *)
Definition run (ops : engine) : M unit :=
  _ ← lift (build_static ops);
  disp ← run_static_analysis ops 100;
  mret ().

End Evaluator.

(* ===================================================================== *)
(** * The range of the error function                                     *)
(* ===================================================================== *)

(** [math_erf] takes its values in [-1, 1]: the Gaussian integral.  The
    Gaussian lies below the powers [1 / (1 + t^2/n)^n], whose
    antiderivatives are known in closed form; their limits at infinity are
    Wallis' products, which Wallis' integrals bound in terms of [PI]. *)

Module ErrorFunction.
Import Libm.

Lemma gauss_pos (t : R) : 0 < gauss t.
Proof. apply exp_pos. Qed.

Lemma math_erf_0 : math_erf 0 = 0.
Proof. unfold math_erf, gauss_int. rewrite RiemannInt_P9. lra. Qed.

Lemma two_over_sqrt_pi_pos : 0 < 2 / sqrt PI.
Proof. apply Rdiv_lt_0_compat; [lra|]. apply sqrt_lt_R0, PI_RGT_0. Qed.

Lemma gauss_lower (x y t : R) : x <= t <= y -> gauss (Rmax (Rabs x) (Rabs y)) <= gauss t.
Proof.
  intros Ht. unfold gauss.
  assert (Rabs t <= Rmax (Rabs x) (Rabs y)) as Habs.
  { unfold Rmax, Rabs. repeat destruct Rcase_abs; destruct Rle_dec; lra. }
  assert (0 <= Rabs t) by apply Rabs_pos.
  assert (t * t = Rabs t * Rabs t) as -> by (unfold Rabs; destruct Rcase_abs; lra).
  destruct (Rle_lt_or_eq_dec _ _ Habs) as [Hlt | Heq].
  - left. apply exp_increasing. nra.
  - right. by rewrite Heq.
Qed.

(** The error function is strictly increasing. *)
Lemma math_erf_increasing (x y : R) : x < y -> math_erf x < math_erf y.
Proof.
  intros Hxy. unfold math_erf, gauss_int.
  pose proof two_over_sqrt_pi_pos as Hc.
  rewrite <- (RiemannInt_P26 (gauss_integrable 0 x) (gauss_integrable x y)
                (gauss_integrable 0 y)).
  set (c := gauss (Rmax (Rabs x) (Rabs y))).
  assert (0 < c) as Hcpos by apply gauss_pos.
  assert (Riemann_integrable (fct_cte c) x y) as Hi by apply RiemannInt_P14.
  assert (c * (y - x) <= RiemannInt (gauss_integrable x y)) as Hlow.
  { rewrite <- (RiemannInt_P15 Hi).
    apply RiemannInt_P19; [lra|].
    intros t Ht. unfold fct_cte. apply gauss_lower. lra. }
  assert (0 < RiemannInt (gauss_integrable x y)) by nra.
  nra.
Qed.

Lemma math_erf_monotone (x y : R) : x <= y -> math_erf x <= math_erf y.
Proof.
  intros [H| ->]; [left; by apply math_erf_increasing | lra].
Qed.

(** Derivatives of functions written as abstractions. *)

Lemma D_value (f : R -> R) (x l l' : R) :
  derivable_pt_lim f x l -> l = l' -> derivable_pt_lim f x l'.
Proof. by intros H <-. Qed.

Lemma D_const (c x : R) : derivable_pt_lim (fun _ => c) x 0.
Proof. apply (derivable_pt_lim_const c x). Qed.

Lemma D_id (x : R) : derivable_pt_lim (fun t => t) x 1.
Proof. apply (derivable_pt_lim_id x). Qed.

Lemma D_plus (f g : R -> R) (x l1 l2 : R) :
  derivable_pt_lim f x l1 -> derivable_pt_lim g x l2 ->
  derivable_pt_lim (fun t => f t + g t) x (l1 + l2).
Proof. apply (derivable_pt_lim_plus f g x l1 l2). Qed.

Lemma D_minus (f g : R -> R) (x l1 l2 : R) :
  derivable_pt_lim f x l1 -> derivable_pt_lim g x l2 ->
  derivable_pt_lim (fun t => f t - g t) x (l1 - l2).
Proof. apply (derivable_pt_lim_minus f g x l1 l2). Qed.

Lemma D_mult (f g : R -> R) (x l1 l2 : R) :
  derivable_pt_lim f x l1 -> derivable_pt_lim g x l2 ->
  derivable_pt_lim (fun t => f t * g t) x (l1 * g x + f x * l2).
Proof. apply (derivable_pt_lim_mult f g x l1 l2). Qed.

Lemma D_scal (c : R) (f : R -> R) (x l : R) :
  derivable_pt_lim f x l -> derivable_pt_lim (fun t => c * f t) x (c * l).
Proof. apply (derivable_pt_lim_scal f c x l). Qed.

Lemma D_comp (f g : R -> R) (x l1 l2 : R) :
  derivable_pt_lim f x l1 -> derivable_pt_lim g (f x) l2 ->
  derivable_pt_lim (fun t => g (f t)) x (l2 * l1).
Proof. apply (derivable_pt_lim_comp f g x l1 l2). Qed.

Lemma D_pow (f : R -> R) (n : nat) (x l : R) :
  derivable_pt_lim f x l ->
  derivable_pt_lim (fun t => f t ^ n) x (INR n * f x ^ Init.Nat.pred n * l).
Proof.
  intros Hf. apply (D_comp f (fun y => y ^ n) x l _ Hf).
  apply derivable_pt_lim_pow.
Qed.

(** ** Wallis' integrals, by their antiderivatives *)

(** An antiderivative of [sin ^ j] that vanishes at 0. *)
Fixpoint sin_pow_int (j : nat) (x : R) : R :=
  match j with
  | O => x
  | S O => 1 - cos x
  | S (S j' as j1) =>
      - (sin x ^ j1 * cos x) / INR j + INR j1 / INR j * sin_pow_int j' x
  end.

Lemma sin_pow_int_SS (j : nat) (x : R) :
  sin_pow_int (S (S j)) x
  = - (sin x ^ S j * cos x) / INR (S (S j))
    + INR (S j) / INR (S (S j)) * sin_pow_int j x.
Proof. reflexivity. Qed.

Lemma sin_pow_int_derive (j : nat) (x : R) :
  derivable_pt_lim (sin_pow_int j) x (sin x ^ j)
  /\ derivable_pt_lim (sin_pow_int (S j)) x (sin x ^ S j).
Proof.
  induction j as [|j [IH0 IH1]].
  - split.
    + eapply D_value; [apply D_id|]. cbn. lra.
    + eapply D_value.
      * apply (D_minus (fun _ => 1) cos); [apply D_const|apply derivable_pt_lim_cos].
      * cbn. lra.
  - split; [done|].
    assert (INR (S (S j)) <> 0) as Hj by (apply not_0_INR; lia).
    eapply D_value.
    + apply (derivable_pt_lim_ext
               (fun t => - / INR (S (S j)) * (sin t ^ S j * cos t)
                         + INR (S j) / INR (S (S j)) * sin_pow_int j t)).
      { intros t. rewrite sin_pow_int_SS. field. done. }
      apply D_plus.
      * apply D_scal. apply D_mult.
        -- apply D_pow. apply derivable_pt_lim_sin.
        -- apply derivable_pt_lim_cos.
      * apply D_scal. exact IH0.
    + cbn [Init.Nat.pred].
      assert (cos x * cos x = 1 - sin x * sin x) as Hcos
        by (pose proof (sin2_cos2 x) as H; unfold Rsqr in H; lra).
      rewrite !S_INR in *. cbn [pow].
      set (s := sin x) in *. set (p := s ^ j). set (c := cos x) in *.
      set (n := INR j) in *.
      clearbody s p c n.
      transitivity (- / (n + 1 + 1) * ((n + 1) * p * (c * c) - s * p * s)
                    + (n + 1) / (n + 1 + 1) * p); [by field|].
      rewrite Hcos. by field.
Qed.

(** Wallis' integrals. *)
Definition wallis (j : nat) : R := sin_pow_int j (PI / 2).

Lemma sin_pow_int_0 (j : nat) : sin_pow_int j 0 = 0 /\ sin_pow_int (S j) 0 = 0.
Proof.
  induction j as [|j [IH0 IH1]].
  - split; [done|]. cbn. rewrite cos_0. lra.
  - split; [done|]. rewrite sin_pow_int_SS, IH0, sin_0. cbn [pow]. lra.
Qed.

Lemma wallis_0 : wallis 0 = PI / 2.
Proof. reflexivity. Qed.

Lemma wallis_1 : wallis 1 = 1.
Proof. unfold wallis. cbn. rewrite cos_PI2. lra. Qed.

Lemma wallis_SS (j : nat) :
  wallis (S (S j)) = INR (S j) / INR (S (S j)) * wallis j.
Proof. unfold wallis. rewrite sin_pow_int_SS, cos_PI2. lra. Qed.

Lemma wallis_decreasing (j : nat) : wallis (S j) <= wallis j.
Proof.
  set (d := fun x => sin_pow_int j x - sin_pow_int (S j) x).
  assert (forall x, derivable_pt_lim d x (sin x ^ j - sin x ^ S j)) as Hd.
  { intros x. apply D_minus; apply sin_pow_int_derive. }
  assert (derivable d) as pr.
  { intros x. exists (sin x ^ j - sin x ^ S j). apply Hd. }
  assert (d 0 <= d (PI / 2)) as Hmono.
  { pose proof PI_RGT_0.
    apply (derive_increasing_interv_var 0 (PI / 2) d pr); try lra.
    intros t Ht. rewrite (derive_pt_eq_0 _ _ _ (pr t) (Hd t)).
    assert (0 <= sin t) by (apply sin_ge_0; lra).
    pose proof (SIN_bound t) as [_ Hle].
    assert (0 <= sin t ^ j) by by apply pow_le.
    cbn [pow]. nra. }
  unfold d in Hmono.
  destruct (sin_pow_int_0 j) as [H0 H1]. rewrite H0, H1 in Hmono.
  fold (wallis j) (wallis (S j)) in Hmono. lra.
Qed.

(** The products the integrals of even and odd order are. *)
Fixpoint even_product (k : nat) : R :=
  match k with
  | O => 1
  | S k' => (2 * INR k' + 1) / (2 * INR k' + 2) * even_product k'
  end.

Fixpoint odd_product (k : nat) : R :=
  match k with
  | O => 1
  | S k' => (2 * INR k' + 2) / (2 * INR k' + 3) * odd_product k'
  end.

Lemma wallis_even_odd (k : nat) :
  wallis (2 * k) = PI / 2 * even_product k
  /\ wallis (S (2 * k)) = odd_product k.
Proof.
  induction k as [|k [IHe IHo]].
  - change (2 * 0)%nat with 0%nat.
    split; [rewrite wallis_0; cbn; lra | rewrite wallis_1; done].
  - replace (2 * S k)%nat with (S (S (2 * k))) by lia.
    rewrite !wallis_SS, IHe, IHo.
    rewrite !S_INR, mult_INR. cbn [even_product odd_product INR].
    pose proof (pos_INR k).
    split; field; lra.
Qed.

Lemma even_product_pos (k : nat) : 0 < even_product k.
Proof.
  induction k as [|k IH]; cbn; [lra|].
  pose proof (pos_INR k).
  apply Rmult_lt_0_compat; [|done]. apply Rdiv_lt_0_compat; lra.
Qed.

Lemma even_odd_product (k : nat) :
  even_product k * odd_product k * (2 * INR k + 1) = 1.
Proof.
  induction k as [|k IH]; [cbn; lra|].
  rewrite S_INR. cbn [even_product odd_product].
  pose proof (pos_INR k).
  transitivity (even_product k * odd_product k * (2 * INR k + 1)); [field; lra|done].
Qed.

(** Wallis' inequality: [even_product (k+1) ^ 2 <= 1 / (PI * (k+1))]. *)
Lemma even_product_bound (k : nat) :
  PI * (INR k + 1) * (even_product (S k) * even_product (S k)) <= 1.
Proof.
  pose proof (wallis_decreasing (S (2 * k))) as Hle.
  replace (S (S (2 * k))) with (2 * S k)%nat in Hle by lia.
  destruct (wallis_even_odd k) as [_ Ho]. destruct (wallis_even_odd (S k)) as [He _].
  rewrite He, Ho in Hle.
  pose proof (even_odd_product k) as Hprod.
  pose proof (even_product_pos k) as Hpos. pose proof (pos_INR k) as Hk.
  pose proof PI_RGT_0.
  cbn [even_product] in *.
  set (e := even_product k) in *. set (o := odd_product k) in *. set (n := INR k) in *.
  clearbody e o n.
  assert (o = / (e * (2 * n + 1))) as ->.
  { apply Rmult_eq_reg_r with (e * (2 * n + 1)); [|nra].
    rewrite Rinv_l by nra. lra. }
  assert (PI / 2 * ((2 * n + 1) / (2 * n + 2) * e) * (e * (2 * n + 1)) <= 1) as H1.
  { apply Rmult_le_reg_r with (/ (e * (2 * n + 1))).
    - apply Rinv_0_lt_compat. nra.
    - rewrite Rmult_assoc, Rinv_r by nra. lra. }
  assert ((2 * n + 1) / (2 * n + 2) * e * ((2 * n + 1) / (2 * n + 2) * e)
          = (PI / 2 * ((2 * n + 1) / (2 * n + 2) * e) * (e * (2 * n + 1)))
            * (2 / (PI * (2 * n + 2)))) as -> by (field; lra).
  assert (0 < 2 / (PI * (2 * n + 2))) by (apply Rdiv_lt_0_compat; nra).
  assert (PI * (n + 1) * (2 / (PI * (2 * n + 2))) = 1) as Hone by (field; lra).
  set (w := PI / 2 * ((2 * n + 1) / (2 * n + 2) * e) * (e * (2 * n + 1))) in *.
  clearbody w.
  replace (PI * (n + 1) * (w * (2 / (PI * (2 * n + 2)))))
    with (w * (PI * (n + 1) * (2 / (PI * (2 * n + 2))))) by ring.
  rewrite Hone. lra.
Qed.

Section Comparison.

Variable a : R.
Hypothesis a_pos : 0 < a.

(** [1 / (1 + a x^2)], whose powers dominate the Gaussian. *)
Definition cauchy (x : R) : R := / (1 + a * (x * x)).

Lemma cauchy_denominator (x : R) : 0 < 1 + a * (x * x).
Proof. nra. Qed.

Lemma cauchy_range (x : R) : 0 < cauchy x <= 1.
Proof.
  unfold cauchy. pose proof (cauchy_denominator x). split.
  - by apply Rinv_0_lt_compat.
  - rewrite <- Rinv_1 at 2. apply Rinv_le_contravar; nra.
Qed.

Lemma cauchy_even (x : R) : cauchy (- x) = cauchy x.
Proof. unfold cauchy. f_equal. ring. Qed.

Lemma cauchy_derive (x : R) :
  derivable_pt_lim cauchy x (- (2 * a * x) * (cauchy x * cauchy x)).
Proof.
  pose proof (cauchy_denominator x).
  eapply D_value.
  - apply (derivable_pt_lim_ext (fun t => (fun _ => 1) t / (fun t => 1 + a * (t * t)) t)).
    { intros t. unfold cauchy. field. pose proof (cauchy_denominator t). lra. }
    apply (derivable_pt_lim_div (fun _ => 1) (fun t => 1 + a * (t * t)) x).
    + apply D_const.
    + apply D_plus; [apply D_const|]. apply D_scal. apply D_mult; apply D_id.
    + lra.
  - unfold cauchy, Rsqr. field. lra.
Qed.

(** An antiderivative of [cauchy ^ (k+1)] that vanishes at 0. *)
Fixpoint cauchy_pow_int (k : nat) (x : R) : R :=
  match k with
  | O => atan (sqrt a * x) / sqrt a
  | S k' =>
      x * cauchy x ^ S k' / (2 * INR k' + 2)
      + (2 * INR k' + 1) / (2 * INR k' + 2) * cauchy_pow_int k' x
  end.

Lemma sqrt_a_pos : 0 < sqrt a.
Proof. by apply sqrt_lt_R0. Qed.

Lemma cauchy_pow_int_derive (k : nat) (x : R) :
  derivable_pt_lim (cauchy_pow_int k) x (cauchy x ^ S k).
Proof.
  pose proof sqrt_a_pos as Hs. pose proof (cauchy_denominator x) as Hden.
  induction k as [|k IH].
  - eapply D_value.
    + apply (derivable_pt_lim_ext (fun t => / sqrt a * atan (sqrt a * t))).
      { intros t. cbn. field. lra. }
      apply D_scal. apply (D_comp (fun t => sqrt a * t) atan).
      * apply D_scal. apply D_id.
      * apply derivable_pt_lim_atan.
    + unfold cauchy. cbn [pow].
      replace ((sqrt a * x) * ((sqrt a * x) * 1)) with (sqrt a * sqrt a * (x * x)) by ring.
      rewrite sqrt_sqrt by lra. field. lra.
  - pose proof (pos_INR k) as Hk.
    eapply D_value.
    + apply (derivable_pt_lim_ext
               (fun t => / (2 * INR k + 2) * (t * cauchy t ^ S k)
                         + (2 * INR k + 1) / (2 * INR k + 2) * cauchy_pow_int k t)).
      { intros t. cbn [cauchy_pow_int]. field. lra. }
      apply D_plus.
      * apply D_scal. apply D_mult; [apply D_id|].
        apply D_pow. apply cauchy_derive.
      * apply D_scal. exact IH.
    + cbn [Init.Nat.pred]. rewrite S_INR. cbn [pow]. unfold cauchy.
      set (p := (/ (1 + a * (x * x))) ^ k). clearbody p.
      set (n := INR k) in *. clearbody n.
      field. lra.
Qed.

Lemma cauchy_pow_int_derivable (k : nat) : derivable (cauchy_pow_int k).
Proof. intros x. exists (cauchy x ^ S k). apply cauchy_pow_int_derive. Qed.

Lemma cauchy_pow_int_increasing (k : nat) (x y : R) :
  x <= y -> cauchy_pow_int k x <= cauchy_pow_int k y.
Proof.
  apply (nonneg_derivative_1 _ (cauchy_pow_int_derivable k)).
  intros t. rewrite (derive_pt_eq_0 _ _ _ _ (cauchy_pow_int_derive k t)).
  apply pow_le. left. apply cauchy_range.
Qed.

Lemma cauchy_pow_int_odd (k : nat) (x : R) :
  cauchy_pow_int k (- x) = - cauchy_pow_int k x.
Proof.
  induction k as [|k IH]; cbn [cauchy_pow_int].
  - replace (sqrt a * - x) with (- (sqrt a * x)) by ring. rewrite atan_opp.
    pose proof sqrt_a_pos. field. lra.
  - rewrite IH, cauchy_even. pose proof (pos_INR k). field. lra.
Qed.

Lemma cauchy_pow_int_0 (k : nat) : cauchy_pow_int k 0 = 0.
Proof.
  pose proof (cauchy_pow_int_odd k 0) as H. rewrite Ropp_0 in H. lra.
Qed.

(** The antiderivative stays below its limit at infinity. *)
Lemma cauchy_pow_int_upper (k : nat) (x : R) :
  cauchy_pow_int k x <= PI / (2 * sqrt a) * even_product k.
Proof.
  pose proof sqrt_a_pos as Hs. pose proof PI_RGT_0 as Hpi.
  revert x. induction k as [|k IH]; intros x.
  - cbn [cauchy_pow_int even_product].
    pose proof (atan_bound (sqrt a * x)) as [_ Hup].
    replace (PI / (2 * sqrt a) * 1) with (PI / 2 / sqrt a) by (field; lra).
    apply Rmult_le_compat_r; [left; by apply Rinv_0_lt_compat|lra].
  - pose proof (pos_INR k) as Hk.
    apply Rle_plus_epsilon. intros eps Heps.
    set (y := Rmax x (Rmax 1 (/ (a * eps)))).
    assert (x <= y) as Hxy by apply Rmax_l.
    assert (1 <= y) as Hy1.
    { unfold y. eapply Rle_trans; [apply (Rmax_l 1 (/ (a * eps)))|apply Rmax_r]. }
    assert (/ (a * eps) <= y) as Hy2.
    { unfold y. eapply Rle_trans; [apply (Rmax_r 1 (/ (a * eps)))|apply Rmax_r]. }
    eapply Rle_trans; [apply (cauchy_pow_int_increasing (S k) x y Hxy)|].
    cbn [cauchy_pow_int even_product].
    specialize (IH y).
    pose proof (cauchy_range y) as [Hq0 Hq1].
    assert (0 <= cauchy y ^ k <= 1) as [Hp0 Hp1].
    { split; [apply pow_le; lra|]. rewrite <- (pow1 k). apply pow_incr. lra. }
    assert (y * cauchy y <= / (a * y)) as Hyq.
    { unfold cauchy. pose proof (cauchy_denominator y).
      apply Rmult_le_reg_r with (a * y); [nra|].
      rewrite Rinv_l by nra.
      apply Rmult_le_reg_r with (1 + a * (y * y)); [lra|].
      replace (y * / (1 + a * (y * y)) * (a * y) * (1 + a * (y * y)))
        with (a * (y * y) * ((1 + a * (y * y)) * / (1 + a * (y * y)))) by ring.
      rewrite Rinv_r by lra. lra. }
    assert (/ (a * y) <= eps) as Hay.
    { assert (0 < a * eps) by nra.
      assert (0 < / (a * eps)) by by apply Rinv_0_lt_compat.
      apply Rmult_le_reg_r with (a * y); [nra|].
      rewrite Rinv_l by nra.
      assert (1 = / (a * eps) * (a * eps)) as Hone by (rewrite Rinv_l; lra).
      assert (/ (a * eps) * (a * eps) <= y * (a * eps)) by nra.
      lra. }
    assert (y * cauchy y ^ S k / (2 * INR k + 2) <= eps) as Hsmall.
    { cbn [pow].
      assert (y * (cauchy y * cauchy y ^ k) <= y * cauchy y) as H1.
      { apply Rmult_le_compat_l; [lra|].
        assert (cauchy y * cauchy y ^ k <= cauchy y * 1)
          by (apply Rmult_le_compat_l; lra).
        lra. }
      assert (0 < / (2 * INR k + 2) <= 1) as [Hi0 Hi1].
      { split; [apply Rinv_0_lt_compat; lra|].
        replace 1 with (/ 1) by apply Rinv_1. apply Rinv_le_contravar; lra. }
      assert (0 <= y * (cauchy y * cauchy y ^ k))
        by (apply Rmult_le_pos; [lra|apply Rmult_le_pos; lra]).
      unfold Rdiv. nra. }
    assert (0 < (2 * INR k + 1) / (2 * INR k + 2)) as Hc
      by (apply Rdiv_lt_0_compat; lra).
    replace (PI / (2 * sqrt a) * ((2 * INR k + 1) / (2 * INR k + 2) * even_product k))
      with ((2 * INR k + 1) / (2 * INR k + 2) * (PI / (2 * sqrt a) * even_product k))
      by ring.
    nra.
Qed.

Lemma cauchy_pow_int_lower (k : nat) (x : R) :
  - (PI / (2 * sqrt a) * even_product k) <= cauchy_pow_int k x.
Proof.
  pose proof (cauchy_pow_int_upper k (- x)) as H.
  rewrite cauchy_pow_int_odd in H. lra.
Qed.

End Comparison.

Lemma exp_pow_nat (u : R) (n : nat) : exp u ^ n = exp (INR n * u).
Proof.
  induction n as [|n IH].
  - cbn. by rewrite Rmult_0_l, exp_0.
  - rewrite S_INR. cbn [pow]. rewrite IH, <- exp_plus. f_equal. ring.
Qed.

Lemma exp_ge_1_plus (u : R) : 1 + u <= exp u.
Proof.
  destruct (Req_dec u 0) as [->|Hu].
  - rewrite exp_0. lra.
  - left. by apply exp_ineq1.
Qed.

(** The Gaussian lies below every power [1 / (1 + t^2/n)^n]. *)
Lemma gauss_le_cauchy (k : nat) (t : R) :
  gauss t <= cauchy (/ INR (S k)) t ^ S k.
Proof.
  assert (0 < INR (S k)) as Hn by (apply lt_0_INR; lia).
  assert (0 < / INR (S k)) as Ha by by apply Rinv_0_lt_compat.
  unfold gauss, cauchy. rewrite pow_inv, exp_Ropp.
  set (u := / INR (S k) * (t * t)).
  assert (0 <= u) by (unfold u; nra).
  apply Rinv_le_contravar; [apply pow_lt; lra|].
  replace (t * t) with (INR (S k) * u) by (unfold u; field; lra).
  rewrite <- exp_pow_nat. apply pow_incr. split; [lra|apply exp_ge_1_plus].
Qed.

Lemma continuity_pt_ext (f g : R -> R) (x : R) :
  (forall t, f t = g t) -> continuity_pt f x -> continuity_pt g x.
Proof.
  intros Hfg Hf eps Heps. destruct (Hf eps Heps) as (d & Hd & Hlim).
  exists d. split; [done|]. intros t Ht. rewrite <- !Hfg. by apply Hlim.
Qed.

Section Bound.

Variable k : nat.
Let a : R := / INR (S k).

Lemma scale_pos : 0 < a.
Proof. apply Rinv_0_lt_compat, lt_0_INR. lia. Qed.

Lemma cauchy_pow_int_C1 :
  continuity (derive (cauchy_pow_int a k) (cauchy_pow_int_derivable a scale_pos k)).
Proof.
  intros x.
  apply (continuity_pt_ext (fun t => cauchy a t ^ S k)).
  - intros t. unfold derive. symmetry.
    apply derive_pt_eq_0, cauchy_pow_int_derive, scale_pos.
  - apply derivable_continuous_pt.
    eexists. apply D_pow, cauchy_derive, scale_pos.
Qed.

Definition comparison : C1_fun :=
  {| c1 := cauchy_pow_int a k;
     diff0 := cauchy_pow_int_derivable a scale_pos k;
     cont1 := cauchy_pow_int_C1 |}.

Lemma gauss_le_comparison (t : R) :
  gauss t <= derive comparison (diff0 comparison) t.
Proof.
  unfold derive. cbn [c1 diff0 comparison].
  rewrite (derive_pt_eq_0 _ _ _ _ (cauchy_pow_int_derive a scale_pos k t)).
  apply gauss_le_cauchy.
Qed.

Lemma gauss_int_upper (x : R) :
  0 <= x -> gauss_int x <= cauchy_pow_int a k x.
Proof.
  intros Hx. unfold gauss_int.
  eapply Rle_trans.
  - apply (RiemannInt_P19 (gauss_integrable 0 x) (RiemannInt_P32 comparison 0 x) Hx).
    intros t _. apply gauss_le_comparison.
  - rewrite FTC_Riemann. cbn [c1 comparison].
    rewrite (cauchy_pow_int_0 a scale_pos). lra.
Qed.

Lemma gauss_int_lower (x : R) :
  x <= 0 -> cauchy_pow_int a k x <= gauss_int x.
Proof.
  intros Hx. unfold gauss_int.
  rewrite (RiemannInt_P8 (gauss_integrable 0 x) (gauss_integrable x 0)).
  assert (RiemannInt (gauss_integrable x 0) <= - cauchy_pow_int a k x); [|lra].
  eapply Rle_trans.
  - apply (RiemannInt_P19 (gauss_integrable x 0) (RiemannInt_P32 comparison x 0) Hx).
    intros t _. apply gauss_le_comparison.
  - rewrite FTC_Riemann. cbn [c1 comparison].
    rewrite (cauchy_pow_int_0 a scale_pos). lra.
Qed.

End Bound.

Lemma gauss_int_nonneg (x : R) : 0 <= x -> 0 <= gauss_int x.
Proof.
  intros Hx. unfold gauss_int.
  assert (Riemann_integrable (fct_cte 0) 0 x) as Hi by apply RiemannInt_P14.
  replace 0 with (RiemannInt Hi) at 1 by (rewrite RiemannInt_P15; lra).
  apply RiemannInt_P19; [done|].
  intros t _. unfold fct_cte. left. apply gauss_pos.
Qed.

Lemma gauss_int_nonpos (x : R) : x <= 0 -> gauss_int x <= 0.
Proof.
  intros Hx. unfold gauss_int.
  rewrite (RiemannInt_P8 (gauss_integrable 0 x) (gauss_integrable x 0)).
  assert (0 <= RiemannInt (gauss_integrable x 0)); [|lra].
  assert (Riemann_integrable (fct_cte 0) x 0) as Hi by apply RiemannInt_P14.
  replace 0 with (RiemannInt Hi) at 1 by (rewrite RiemannInt_P15; lra).
  apply RiemannInt_P19; [done|].
  intros t _. unfold fct_cte. left. apply gauss_pos.
Qed.

(** The square of the integral stays below [PI/4 * (j+2)/(j+1)]. *)
Lemma gauss_int_square_upper (j : nat) (x : R) :
  4 / PI * (gauss_int x * gauss_int x) <= 1 + / (INR j + 1).
Proof.
  pose proof PI_RGT_0 as Hpi. pose proof (pos_INR j) as Hj.
  set (k := S j). set (a := / INR (S k)).
  assert (0 < a) as Ha by apply scale_pos.
  assert (0 < sqrt a) as Hs by by apply sqrt_lt_R0.
  set (bound := PI / (2 * sqrt a) * even_product k).
  assert (0 < bound) as Hb.
  { unfold bound. apply Rmult_lt_0_compat; [|apply even_product_pos].
    apply Rdiv_lt_0_compat; lra. }
  assert (- bound <= gauss_int x <= bound) as [Hlo Hup].
  { destruct (Rle_dec 0 x) as [Hx|Hx].
    - pose proof (gauss_int_nonneg x Hx).
      pose proof (gauss_int_upper k x Hx).
      pose proof (cauchy_pow_int_upper a Ha k x). unfold bound, a in *. lra.
    - pose proof (gauss_int_nonpos x ltac:(lra)).
      pose proof (gauss_int_lower k x ltac:(lra)).
      pose proof (cauchy_pow_int_lower a Ha k x). unfold bound, a in *. lra. }
  assert (gauss_int x * gauss_int x <= bound * bound) as Hsq by nra.
  assert (4 / PI * (bound * bound) <= 1 + / (INR j + 1)); [|
    assert (0 < 4 / PI) by (apply Rdiv_lt_0_compat; lra); nra].
  pose proof (even_product_bound j) as Hw. fold k in Hw.
  unfold bound.
  assert (sqrt a * sqrt a = a) as Hsa by (apply sqrt_sqrt; lra).
  assert (4 / PI * (PI / (2 * sqrt a) * even_product k * (PI / (2 * sqrt a) * even_product k))
          = PI * (even_product k * even_product k) / (sqrt a * sqrt a)) as ->
    by (field; lra).
  rewrite Hsa. unfold a, k. rewrite !S_INR.
  assert (PI * (even_product (S j) * even_product (S j)) / / (INR j + 1 + 1)
          = PI * (INR j + 1) * (even_product (S j) * even_product (S j))
            * ((INR j + 1 + 1) / (INR j + 1))) as -> by (field; lra).
  assert ((INR j + 1 + 1) / (INR j + 1) = 1 + / (INR j + 1)) as -> by (field; lra).
  assert (0 < / (INR j + 1)) by (apply Rinv_0_lt_compat; lra).
  unfold k in Hw.
  apply Rle_trans with (1 * (1 + / (INR j + 1))); [|lra].
  apply Rmult_le_compat_r; lra.
Qed.

(** The Gaussian integral: [(2/sqrt PI * gauss_int x)^2 <= 1]. *)
Lemma gauss_int_square (x : R) : 4 / PI * (gauss_int x * gauss_int x) <= 1.
Proof.
  apply Rle_plus_epsilon. intros eps Heps.
  destruct (archimed (/ eps)) as [Hup _].
  assert (0 < / eps) by by apply Rinv_0_lt_compat.
  assert (0 < up (/ eps))%Z as Hz by (apply lt_IZR; lra).
  set (j := Z.to_nat (up (/ eps))).
  assert (INR j = IZR (up (/ eps))) as Hj by (unfold j; rewrite INR_IZR_INZ, Z2Nat.id; [done|lia]).
  eapply Rle_trans; [apply (gauss_int_square_upper j)|].
  assert (/ (INR j + 1) <= eps); [|lra].
  rewrite <- (Rinv_inv eps). apply Rinv_le_contravar; [done|]. lra.
Qed.

Lemma math_erf_square (x : R) : math_erf x * math_erf x <= 1.
Proof.
  pose proof (gauss_int_square x) as H. pose proof PI_RGT_0 as Hpi.
  unfold math_erf. fold (gauss_int x).
  assert (0 < sqrt PI) as Hs by (apply sqrt_lt_R0; lra).
  assert (sqrt PI * sqrt PI = PI) as Hsq by (apply sqrt_sqrt; lra).
  assert (2 / sqrt PI * gauss_int x * (2 / sqrt PI * gauss_int x)
          = 4 / (sqrt PI * sqrt PI) * (gauss_int x * gauss_int x)) as ->
    by (field; lra).
  by rewrite Hsq.
Qed.

(** The error function takes its values in [-1, 1]. *)
Lemma math_erf_range (x : R) : -1 <= math_erf x <= 1.
Proof. pose proof (math_erf_square x). nra. Qed.

End ErrorFunction.

(* ===================================================================== *)
(** * Properties of the damage classifier                                 *)
(* ===================================================================== *)

Module DamageEvaluatorProps.
Import DamageEvaluator.

(** ** The specification's reading of the probability operation *)

(** The exceedance probability as the specification words it; a state
    without a curve contributes 0, as [probabilities.get(..., 0.0)] does. *)
Definition P_exceed_spec (f : fragility) (demand : R)
    (state : DamageState) : R :=
  match f !! state with
  | Some c =>
      if Rgt_dec demand 0
      then 0.5 * (1 + Libm.math_erf ((ln (demand / median c) / beta c) / sqrt 2))
      else 0
  | None => 0
  end.

Definition next_more_severe (state : DamageState) : DamageState :=
  match state with
  | NO_DAMAGE => SLIGHT
  | SLIGHT => MODERATE
  | MODERATE => EXTENSIVE
  | EXTENSIVE | COMPLETE => COMPLETE
  end.

(** The discrete distribution as the specification words it. *)
Definition P_state_spec (f : fragility) (demand : R)
    (state : DamageState) : R :=
  match state with
  | NO_DAMAGE => 1 - P_exceed_spec f demand SLIGHT
  | COMPLETE => P_exceed_spec f demand COMPLETE
  | _ => P_exceed_spec f demand state
         - P_exceed_spec f demand (next_more_severe state)
  end.

Lemma name_inj (s t : DamageState) : name s = name t -> s = t.
Proof. by destruct s, t. Qed.

Lemma exceedance_get0 (f : fragility) demand state :
  state <> NO_DAMAGE ->
  get0 (exceedance f demand) (name state) = P_exceed_spec f demand state.
Proof.
  intros Hs. unfold exceedance, members, P_exceed_spec, get0. simpl.
  unfold exceedance_step; simpl.
  destruct (f !! SLIGHT) as [cS|] eqn:HS;
  destruct (f !! MODERATE) as [cM|] eqn:HM;
  destruct (f !! EXTENSIVE) as [cE|] eqn:HE;
  destruct (f !! COMPLETE) as [cC|] eqn:HC;
  destruct state; try done; simplify_map_eq; try done.
Qed.

Lemma conditional_fold (probabilities : gmap string R) :
  foldl (conditional_step probabilities) (Ok ∅) members =
  Ok (<[name COMPLETE := get0 probabilities (name COMPLETE)]>
     (<[name EXTENSIVE := get0 probabilities (name EXTENSIVE)
                          - get0 probabilities (name COMPLETE)]>
     (<[name MODERATE := get0 probabilities (name MODERATE)
                         - get0 probabilities (name EXTENSIVE)]>
     (<[name SLIGHT := get0 probabilities (name SLIGHT)
                       - get0 probabilities (name MODERATE)]>
     (<[name NO_DAMAGE := 1 - get0 probabilities (name SLIGHT)]> ∅))))).
Proof. reflexivity. Qed.

(** The mapping the probability operation returns, value by value. *)
Lemma calculate_probabilities_values
    (self : fragility_params) (component_type : string)
    (f : fragility) (demand : R) :
  self !! component_type = Some f ->
  exists probs : gmap string R,
    _calculate_damage_probabilities self component_type demand = Ok probs
    /\ (forall state, probs !! name state = Some (P_state_spec f demand state))
    /\ (forall key, is_Some (probs !! key) <-> exists state, key = name state).
Proof.
  intros Hf. unfold _calculate_damage_probabilities, component.
  rewrite Hf. cbn [mbind result_bind]. rewrite conditional_fold.
  eexists; split; [reflexivity|]. split.
  - intros state. unfold P_state_spec.
    pose proof (exceedance_get0 f demand SLIGHT) as HS.
    pose proof (exceedance_get0 f demand MODERATE) as HM.
    pose proof (exceedance_get0 f demand EXTENSIVE) as HE.
    pose proof (exceedance_get0 f demand COMPLETE) as HC.
    cbn [name] in HS, HM, HE, HC.
    destruct state; cbn [name next_more_severe]; simplify_map_eq;
      rewrite ?HS, ?HM, ?HE, ?HC by done; done.
  - intros key; split.
    + intros [x Hx].
      repeat (apply lookup_insert_Some in Hx as [[<- _]|[_ Hx]]; [by eexists|]).
      by rewrite lookup_empty in Hx.
    + intros [state ->]. destruct state; cbn [name]; simplify_map_eq; eauto.
Qed.

(** C1: for a component type of the model, the probability operation
    returns the mapping that sends NoDamage to 1 - P_exceed(Slight), every
    state strictly between to P_exceed(state) - P_exceed(next state) and
    Complete to P_exceed(Complete), where P_exceed is the lognormal
    exceedance 0.5*(1 + erf((ln(demand/median)/beta)/sqrt 2)) for a positive
    demand and 0 otherwise; the mapping has exactly the five state names
    as keys. *)
Theorem calculate_damage_probabilities_spec
    (self : fragility_params) (component_type : string)
    (f : fragility) (demand : R) :
  self !! component_type = Some f ->
  exists probs : gmap string R,
    _calculate_damage_probabilities self component_type demand = Ok probs
    /\ (forall state, probs !! name state = Some (P_state_spec f demand state))
    /\ (forall key, is_Some (probs !! key) <-> exists state, key = name state).
Proof. apply calculate_probabilities_values. Qed.

(** ** Threshold classification *)

(** A state qualifies when it is not NoDamage, has a curve, and the
    curve's median is at most the demand. *)
Definition qualifies (f : fragility) (demand : R) (state : DamageState) : Prop :=
  state <> NO_DAMAGE /\ exists c, f !! state = Some c /\ median c <= demand.

(** The specification's classification: the most severe qualifying state,
    NoDamage when none qualifies. *)
Definition classify_spec (f : fragility) (demand : R) (state : DamageState) : Prop :=
  (qualifies f demand state
   /\ forall s, qualifies f demand s -> (value s <= value state)%nat)
  \/ (state = NO_DAMAGE /\ forall s, ~ qualifies f demand s).

Lemma reverse_members :
  reverse members = [COMPLETE; EXTENSIVE; MODERATE; SLIGHT; NO_DAMAGE].
Proof. reflexivity. Qed.

Lemma scan_states_spec (f : fragility) (demand : R) :
  classify_spec f demand (scan_states f demand (reverse members)).
Proof.
  rewrite reverse_members. unfold classify_spec, qualifies. cbn [scan_states].
  repeat match goal with
  | |- context [decide (?a = ?b)] => destruct (decide (a = b)) as [?|_]; [done|]
  end.
  destruct (f !! COMPLETE) as [cC|] eqn:HC;
    [destruct (Rge_dec demand (median cC)) as [?|?]|].
  1: { left. split; [split; [done|exists cC; split; [done|lra]]|].
       intros s _. destruct s; cbn; lia. }
  all: (destruct (f !! EXTENSIVE) as [cE|] eqn:HE;
    [destruct (Rge_dec demand (median cE)) as [?|?]|]).
  1,4: (left; split; [split; [done|exists cE; split; [done|lra]]|];
        intros s [_ (c & Hc & Hle)]; destruct s; cbn; try lia;
        simplify_eq; lra).
  all: (destruct (f !! MODERATE) as [cM|] eqn:HM;
    [destruct (Rge_dec demand (median cM)) as [?|?]|]).
  1,4,7,10: (left; split; [split; [done|exists cM; split; [done|lra]]|];
        intros s [_ (c & Hc & Hle)]; destruct s; cbn; try lia;
        simplify_eq; lra).
  all: (destruct (f !! SLIGHT) as [cS|] eqn:HS;
    [destruct (Rge_dec demand (median cS)) as [?|?]|]).
  all: first
    [ left; split; [split; [done|exists cS; split; [done|lra]]|];
      intros s [_ (c & Hc & Hle)]; destruct s; cbn; try lia; simplify_eq; lra
    | right; split; [done|];
      intros s [Hs (c & Hc & Hle)]; destruct s; simplify_eq; lra ].
Qed.

Lemma default_pier_drift : default_fragility !! "pier_drift" = Some pier_drift_default.
Proof. unfold default_fragility. by rewrite lookup_insert_eq. Qed.

Lemma default_deck_disp : default_fragility !! "deck_disp" = Some deck_disp_default.
Proof. unfold default_fragility. by rewrite lookup_insert_ne, lookup_insert_eq. Qed.

(** C2: for a component type of the model the threshold classification
    returns the most severe state among Complete, Extensive, Moderate and
    Slight that has a curve with median <= demand, and NoDamage when there
    is none; with the default pier-drift curves a demand of 0.012 is
    classified Moderate. *)
Theorem evaluate_damage_state_spec :
  (forall (self : fragility_params) (component_type : string) (f : fragility)
          (demand : R),
      self !! component_type = Some f ->
      exists state,
        _evaluate_damage_state self component_type demand = Ok state
        /\ classify_spec f demand state)
  /\ _evaluate_damage_state default_fragility "pier_drift" 0.012 = Ok MODERATE.
Proof.
  split.
  - intros self component_type f demand Hf.
    unfold _evaluate_damage_state, component. rewrite Hf.
    eexists; split; [reflexivity|]. apply scan_states_spec.
  - unfold _evaluate_damage_state, component. rewrite default_pier_drift.
    cbn [mbind result_bind mret result_ret]. f_equal.
    rewrite reverse_members. unfold pier_drift_default. cbn [scan_states].
    repeat match goal with
    | |- context [decide (?a = ?b)] => destruct (decide (a = b)) as [?|_]; [done|]
    end.
    simplify_map_eq. cbn [median].
    repeat (destruct Rge_dec; try lra). done.
Qed.

(** The general statement applied to the default model: the deck demand
    0.06 passes the Moderate median 0.05 and not the Extensive one. *)
Lemma evaluate_damage_state_spec_witness :
  exists state,
    _evaluate_damage_state default_fragility "deck_disp" 0.06 = Ok state
    /\ classify_spec deck_disp_default 0.06 state.
Proof.
  exact (proj1 evaluate_damage_state_spec default_fragility "deck_disp"
           deck_disp_default 0.06 default_deck_disp).
Defined.

(** The probability theorem applied to the default pier-drift curves. *)
Lemma calculate_damage_probabilities_spec_witness :
  exists probs : gmap string R,
    _calculate_damage_probabilities default_fragility "pier_drift" 0.012
      = Ok probs
    /\ (forall state,
          probs !! name state
          = Some (P_state_spec pier_drift_default 0.012 state))
    /\ (forall key, is_Some (probs !! key) <-> exists state, key = name state).
Proof.
  exact (calculate_damage_probabilities_spec default_fragility
           "pier_drift" pier_drift_default 0.012 default_pier_drift).
Defined.

(** ** Range and total of the distribution *)

(** [sum(probs.values())]. *)
Definition dict_sum (m : gmap string R) : R :=
  map_fold (fun _ v acc => v + acc) 0 m.

Lemma dict_sum_insert (m : gmap string R) (k : string) (v : R) :
  m !! k = None -> dict_sum (<[k := v]> m) = v + dict_sum m.
Proof.
  intros Hk. unfold dict_sum. apply map_fold_insert_L; [|done].
  intros; lra.
Qed.

Lemma dict_sum_empty : dict_sum ∅ = 0.
Proof. unfold dict_sum. apply map_fold_empty. Qed.

Lemma calculate_total (self : fragility_params)
    (component_type : string) (demand : R) (probs : gmap string R) :
  _calculate_damage_probabilities self component_type demand = Ok probs ->
  dict_sum probs = 1.
Proof.
  unfold _calculate_damage_probabilities, component.
  destruct (self !! component_type) as [f|]; [|done].
  cbn [mbind result_bind]. rewrite conditional_fold. intros [= <-].
  cbn [name].
  rewrite !dict_sum_insert, dict_sum_empty by (by simplify_map_eq).
  lra.
Qed.

(** The component has all four curves, with one dispersion and positive
    medians that do not decrease with severity. *)
Definition monotone_curves (f : fragility) : Prop :=
  exists cS cM cE cC : curve,
    f !! SLIGHT = Some cS /\ f !! MODERATE = Some cM
    /\ f !! EXTENSIVE = Some cE /\ f !! COMPLETE = Some cC
    /\ 0 < beta cS /\ beta cM = beta cS /\ beta cE = beta cS /\ beta cC = beta cS
    /\ 0 < median cS /\ median cS <= median cM
    /\ median cM <= median cE /\ median cE <= median cC.

Lemma default_pier_monotone : monotone_curves pier_drift_default.
Proof.
  exists (Curve 0.005 0.6), (Curve 0.01 0.6), (Curve 0.025 0.6), (Curve 0.05 0.6).
  unfold pier_drift_default. cbn [median beta].
  repeat split; try (by simplify_map_eq); lra.
Qed.

(** The normal distribution function takes its values in [0, 1] and is
    monotone, as the error function is. *)
Lemma cdf_range (x : R) : 0 <= _standard_normal_cdf x <= 1.
Proof.
  unfold _standard_normal_cdf.
  pose proof (ErrorFunction.math_erf_range (x / sqrt 2)). lra.
Qed.

Lemma cdf_monotone (x y : R) :
  x <= y -> _standard_normal_cdf x <= _standard_normal_cdf y.
Proof.
  intros Hxy. unfold _standard_normal_cdf.
  assert (0 < sqrt 2) as Hs by (apply sqrt_lt_R0; lra).
  assert (x / sqrt 2 <= y / sqrt 2) as Hle.
  { apply Rmult_le_compat_r; [|done]. left. by apply Rinv_0_lt_compat. }
  pose proof (ErrorFunction.math_erf_monotone _ _ Hle). lra.
Qed.

Lemma ln_monotone (x y : R) : 0 < x -> x <= y -> ln x <= ln y.
Proof.
  intros Hx [Hlt| ->]; [left; by apply ln_increasing | lra].
Qed.

(** A curve with a larger median is exceeded with a smaller probability. *)
Lemma exceedance_antitone (demand m1 m2 b : R) :
  0 < demand -> 0 < b -> 0 < m1 -> m1 <= m2 ->
  _standard_normal_cdf (ln (demand / m2) / b)
  <= _standard_normal_cdf (ln (demand / m1) / b).
Proof.
  intros Hd Hb Hm1 Hm.
  apply cdf_monotone.
  apply Rmult_le_compat_r; [left; by apply Rinv_0_lt_compat|].
  apply ln_monotone.
  - apply Rdiv_lt_0_compat; lra.
  - apply Rmult_le_compat_l; [lra|]. apply Rinv_le_contravar; lra.
Qed.

Lemma P_exceed_chain (f : fragility) (demand : R) :
  monotone_curves f ->
  0 <= P_exceed_spec f demand COMPLETE
  /\ P_exceed_spec f demand COMPLETE <= P_exceed_spec f demand EXTENSIVE
  /\ P_exceed_spec f demand EXTENSIVE <= P_exceed_spec f demand MODERATE
  /\ P_exceed_spec f demand MODERATE <= P_exceed_spec f demand SLIGHT
  /\ P_exceed_spec f demand SLIGHT <= 1.
Proof.
  intros (cS & cM & cE & cC & HS & HM & HE & HC & Hb & HbM & HbE & HbC
          & Hm & HmM & HmE & HmC).
  unfold P_exceed_spec. rewrite HS, HM, HE, HC.
  destruct (Rgt_dec demand 0) as [Hd|Hd]; [|lra].
  fold (_standard_normal_cdf (ln (demand / median cS) / beta cS)).
  fold (_standard_normal_cdf (ln (demand / median cM) / beta cM)).
  fold (_standard_normal_cdf (ln (demand / median cE) / beta cE)).
  fold (_standard_normal_cdf (ln (demand / median cC) / beta cC)).
  rewrite HbM, HbE, HbC.
  repeat split.
  - apply cdf_range.
  - apply exceedance_antitone; lra.
  - apply exceedance_antitone; lra.
  - apply exceedance_antitone; lra.
  - apply cdf_range.
Qed.

(** C3, as amended: for any demand and any component type of the model
    the values of the returned mapping sum to 1; every value lies in
    [0,1] when the component has all four curves with one dispersion
    beta > 0 and positive medians that do not decrease with severity. *)
Theorem calculate_damage_probabilities_range
    (self : fragility_params) (component_type : string) (f : fragility)
    (demand : R) :
  self !! component_type = Some f ->
  exists probs : gmap string R,
    _calculate_damage_probabilities self component_type demand = Ok probs
    /\ dict_sum probs = 1
    /\ (monotone_curves f ->
        forall key v, probs !! key = Some v -> 0 <= v <= 1).
Proof.
  intros Hf.
  destruct (calculate_probabilities_values self component_type f demand Hf)
    as (probs & Hcalc & Hval & Hdom).
  exists probs. split; [done|]. split; [by eapply calculate_total|].
  intros Hmono key v Hkey.
  destruct (proj1 (Hdom key) (mk_is_Some _ _ Hkey)) as [state ->].
  rewrite Hval in Hkey. injection Hkey as <-.
  pose proof (P_exceed_chain f demand Hmono).
  destruct state; cbn [P_state_spec next_more_severe]; lra.
Qed.

(** The range theorem applied to the default pier-drift curves. *)
Lemma calculate_damage_probabilities_range_witness :
  exists probs : gmap string R,
    _calculate_damage_probabilities default_fragility "pier_drift" 0.012
      = Ok probs
    /\ dict_sum probs = 1
    /\ forall key v, probs !! key = Some v -> 0 <= v <= 1.
Proof.
  destruct (calculate_damage_probabilities_range default_fragility "pier_drift"
              pier_drift_default 0.012 default_pier_drift)
    as (probs & Hcalc & Hsum & Hrange).
  exists probs. split; [done|]. split; [done|].
  apply Hrange, default_pier_monotone.
Defined.

(** Curves whose medians increase with severity and whose dispersions
    differ: the Slight and Moderate exceedance curves cross. *)
Definition crossing_curves : fragility :=
  <[SLIGHT := Curve 1 2]>
  (<[MODERATE := Curve 2 0.5]>
  (<[EXTENSIVE := Curve 3 0.5]>
  (<[COMPLETE := Curve 4 0.5]> ∅))).

Definition crossing_fragility : fragility_params :=
  <["pier_drift" := crossing_curves]> ∅.

(** C3 fails as stated: with medians 1 <= 2 <= 3 <= 4 and dispersions
    2, 0.5, 0.5, 0.5 the demand 4 >= 0 gives Slight a negative
    probability. *)
Lemma calculate_damage_probabilities_negative :
  exists (probs : gmap string R) (v : R),
    _calculate_damage_probabilities crossing_fragility "pier_drift" 4
      = Ok probs
    /\ probs !! name SLIGHT = Some v
    /\ v < 0.
Proof.
  assert (crossing_fragility !! "pier_drift" = Some crossing_curves) as Hf
    by (unfold crossing_fragility; by rewrite lookup_insert_eq).
  destruct (calculate_probabilities_values _ _ _ 4 Hf)
    as (probs & Hcalc & Hval & _).
  exists probs, (P_state_spec crossing_curves 4 SLIGHT).
  split; [done|]. split; [apply Hval|].
  cbn [P_state_spec next_more_severe]. unfold P_exceed_spec, crossing_curves.
  simplify_map_eq. cbn [median beta].
  destruct (Rgt_dec 4 0) as [_|?]; [|lra].
  assert (0 < ln 2) as Hln2 by (pose proof ln_lt_2; lra).
  assert (ln (4 / 1) = ln 2 + ln 2) as ->.
  { replace (4 / 1) with (2 * 2) by lra. apply ln_mult; lra. }
  replace (4 / 2) with 2 by lra.
  assert (0 < sqrt 2) as Hs by (apply sqrt_lt_R0; lra).
  assert ((ln 2 + ln 2) / 2 / sqrt 2 < ln 2 / 0.5 / sqrt 2) as Hlt.
  { apply Rmult_lt_compat_r; [by apply Rinv_0_lt_compat|]. lra. }
  pose proof (ErrorFunction.math_erf_increasing _ _ Hlt). lra.
Qed.

End DamageEvaluatorProps.

(* ===================================================================== *)
(** * Properties of [evaluate_damage_from_results]                        *)
(* ===================================================================== *)

Module EvaluationProps.
Import DamageEvaluator.

Tactic Notation "run_result" :=
  cbn [mbind result_bind mret result_ret try_except any_exception when_present].
Tactic Notation "run_result" "in" hyp(H) :=
  cbn [mbind result_bind mret result_ret try_except any_exception when_present] in H.

(** ** Neither branch lets an exception out *)

Lemma static_body_raises (self : fragility_params) (s : Py.value) (e : exn) :
  static_body self s = Raise e -> is_lookup_error e = true.
Proof.
  unfold static_body, getitem_str, getitem_int, _evaluate_damage_state, component.
  intros H. run_result in H.
  repeat (case_match; run_result in H; simplify_eq; try done).
Qed.

Lemma evaluate_static_total (self : fragility_params) (s : Py.value) :
  exists r, evaluate_static self s = Ok r.
Proof.
  unfold evaluate_static, try_except.
  destruct (static_body self s) as [r|e] eqn:Hbody; [by eexists|].
  rewrite (static_body_raises _ _ _ Hbody). by eexists.
Qed.

Lemma evaluate_time_history_total (self : fragility_params)
    (th : Results.time_history_entry) (pier_height : R) :
  exists r, evaluate_time_history self th pier_height = Ok r.
Proof.
  unfold evaluate_time_history, try_except, any_exception.
  destruct (time_history_body self th pier_height); by eexists.
Qed.

(** What the function returns, branch by branch. *)
Lemma evaluate_damage_from_results_branches (self : fragility_params)
    (results : Results.analysis_results) (pier_height : R) :
  exists dr,
    evaluate_damage_from_results self results pier_height = Ok dr
    /\ (forall s, Results.static results = Some s ->
          exists r, evaluate_static self s = Ok r /\ dr_static dr = Some r)
    /\ (Results.static results = None -> dr_static dr = None)
    /\ (forall th, Results.time_history results = Some th ->
          exists r, evaluate_time_history self th pier_height = Ok r
                    /\ dr_time_history dr = Some r)
    /\ (Results.time_history results = None -> dr_time_history dr = None).
Proof.
  unfold evaluate_damage_from_results, when_present.
  destruct (Results.static results) as [s|];
    [destruct (evaluate_static_total self s) as [r Hr]; rewrite Hr|];
    (destruct (Results.time_history results) as [th|];
     [destruct (evaluate_time_history_total self th pier_height) as [r' Hr'];
      rewrite Hr'|]);
    run_result; eexists; (split; [reflexivity|]); cbn [dr_static dr_time_history];
    repeat split; intros; simplify_eq; eauto.
Qed.

(** ** The array the demands are read from *)

Lemma pad_columns_row (a : Np.ndarray) (i : nat) (row : list R) :
  Np.rectangular a -> (Np.shape1 a < 16)%nat -> a !! i = Some row ->
  Np.pad_columns 16 a !! i = Some (row ++ replicate (16 - Np.shape1 a) 0).
Proof.
  intros Hrect Hlt Hi. unfold Np.pad_columns. cbv zeta.
  rewrite list_lookup_fmap, Hi. cbn -[Nat.min Nat.sub]. f_equal.
  assert (length row = Np.shape1 a) as Hlen.
  { eapply Forall_lookup_1 in Hrect; eauto. }
  replace (16 `min` Np.shape1 a)%nat with (Np.shape1 a) by lia.
  rewrite take_ge by lia. done.
Qed.

Lemma pad_columns_width (a : Np.ndarray) :
  Np.rectangular a ->
  Forall (fun row => length row = 16%nat) (Np.pad_columns 16 a).
Proof.
  intros Hrect. unfold Np.pad_columns. cbv zeta. apply Forall_fmap.
  eapply Forall_impl; [apply Hrect|]. intros row Hlen. cbn beta in Hlen. cbn -[Nat.min Nat.sub].
  rewrite length_app, length_take, length_replicate. lia.
Qed.

Lemma disp_array_width (a : Np.ndarray) :
  Np.rectangular a -> Forall (fun row => (16 <= length row)%nat) (disp_array_of a).
Proof.
  intros Hrect. unfold disp_array_of. case_decide as Hlt.
  - eapply Forall_impl; [by apply pad_columns_width|]. cbn. lia.
  - eapply Forall_impl; [apply Hrect|]. cbn. lia.
Qed.

Lemma disp_array_length (a : Np.ndarray) : length (disp_array_of a) = length a.
Proof.
  unfold disp_array_of, Np.pad_columns. cbv zeta. case_decide; [|done].
  by rewrite length_fmap.
Qed.

Lemma shape1_wide (a : Np.ndarray) :
  (0 < length a)%nat -> Forall (fun row => (16 <= length row)%nat) a ->
  (16 <= Np.shape1 a)%nat.
Proof.
  destruct a as [|row rest]; cbn; [lia|]. intros _ H. by inversion H.
Qed.

Lemma max_abs_zeros (xs : list R) :
  Forall (fun x => x = 0) xs -> Np.max_abs xs = 0.
Proof.
  destruct xs as [|x rest]; [done|]. intros H. inversion H as [|? ? -> Hrest]; subst.
  cbn. rewrite Rabs_R0. clear H.
  induction Hrest as [|y ys -> _ IH]; [done|].
  cbn. rewrite Rabs_R0, Rmax_left by lra. exact IH.
Qed.

Lemma nth_replicate_default {A : Type} (d : A) (n i : nat) :
  nth i (replicate n d) d = d.
Proof. revert i. induction n as [|n IH]; intros [|i]; cbn; auto. Qed.

(** A column to the right of the data is a column of zeros. *)
Lemma padded_column_zero (a : Np.ndarray) (j : nat) :
  Np.rectangular a -> (Np.shape1 a < 16)%nat -> (Np.shape1 a <= j)%nat ->
  Forall (fun x => x = 0) (Np.column_values (disp_array_of a) j).
Proof.
  intros Hrect Hlt Hj. unfold disp_array_of. rewrite decide_True by done.
  unfold Np.column_values, Np.pad_columns. cbv zeta.
  rewrite <- list_fmap_compose. apply Forall_fmap.
  eapply Forall_impl; [apply Hrect|]. intros row Hlen. cbn beta in Hlen. cbn -[Nat.min Nat.sub].
  replace (16 `min` Np.shape1 a)%nat with (Np.shape1 a) by lia.
  rewrite take_ge by lia.
  rewrite app_nth2 by lia.
  apply nth_replicate_default.
Qed.

(** Reading a column of the width-checked array is reading it from the
    recorded array, with 0 where the record has no such column. *)
Lemma column_values_disp_array (a : Np.ndarray) (j : nat) :
  Np.rectangular a ->
  Np.column_values (disp_array_of a) j = Np.column_values a j.
Proof.
  intros Hrect. unfold disp_array_of. case_decide as Hlt; [|done].
  unfold Np.column_values, Np.pad_columns. cbv zeta.
  rewrite <- list_fmap_compose. apply Forall_fmap_ext_1.
  eapply Forall_impl; [apply Hrect|]. intros row Hlen. cbn beta in Hlen.
  cbn -[Nat.min Nat.sub].
  replace (16 `min` Np.shape1 a)%nat with (Np.shape1 a) by lia.
  rewrite take_ge by lia.
  destruct (decide (j < length row)%nat) as [Hj|Hj].
  - by rewrite app_nth1.
  - rewrite app_nth2 by lia. rewrite nth_replicate_default.
    by rewrite nth_overflow by lia.
Qed.

Lemma columns_column_values (a : Np.ndarray) (lo hi j : nat) :
  (j < hi - lo)%nat ->
  Np.column_values (Np.columns a lo hi) j = Np.column_values a (lo + j).
Proof.
  intros Hj. unfold Np.column_values, Np.columns.
  rewrite <- list_fmap_compose. apply list_fmap_ext. intros _ row _. cbn.
  rewrite !nth_lookup. by rewrite lookup_take_lt, lookup_drop.
Qed.

Lemma max_abs_axis0_deck (a : Np.ndarray) :
  (0 < length a)%nat -> Forall (fun row => (16 <= length row)%nat) a ->
  Np.max_abs_axis0 (Np.columns a 13 16)
  = [Np.max_abs (Np.column_values a 13); Np.max_abs (Np.column_values a 14);
     Np.max_abs (Np.column_values a 15)].
Proof.
  intros Hlen Hwide. unfold Np.max_abs_axis0.
  assert (Np.shape1 (Np.columns a 13 16) = 3%nat) as ->.
  { destruct a as [|row rest]; [cbn in Hlen; lia|].
    inversion Hwide as [|? ? Hrow _]; subst. cbn -[take drop].
    rewrite length_take, length_drop. lia. }
  cbn [seq fmap list_fmap].
  by rewrite !columns_column_values by lia.
Qed.

(** With at least two rows the branch reads the pier demand from column 4
    and the deck demand from column 14 of the width-checked array. *)
Lemma time_history_body_reads (self : fragility_params)
    (th : Results.time_history_entry) (pier_height : R) :
  Np.rectangular (Results.displacements th) ->
  (1 < length (Results.displacements th))%nat ->
  let A := disp_array_of (Results.displacements th) in
  let max_drift := Np.max_abs (Np.column_values A 4) / pier_height in
  let max_deck_disp := (fun j => Np.max_abs (Np.column_values A j)) <$> [13; 14; 15]%nat in
  let deck_demand := Np.max_abs (Np.column_values A 14) in
  time_history_body self th pier_height
  = (pier ← _evaluate_damage_state self "pier_drift" max_drift;
     deck ← _evaluate_damage_state self "deck_disp" deck_demand;
     pier_probs ← _calculate_damage_probabilities self "pier_drift" max_drift;
     deck_probs ← _calculate_damage_probabilities self "deck_disp" deck_demand;
     mret {| max_pier_drift := max_drift;
             max_deck_displacement := max_deck_disp;
             pier_damage_state := pier;
             deck_damage_state := deck;
             overall_damage_state := max_by_value pier deck;
             pier_damage_probabilities := pier_probs;
             deck_damage_probabilities := deck_probs;
             time_history_error := None |}).
Proof.
  intros Hrect Hrows A.
  assert (length A = length (Results.displacements th)) as HlenA
    by apply disp_array_length.
  assert (Forall (fun row => (16 <= length row)%nat) A) as Hwide
    by by apply disp_array_width.
  assert (16 <= Np.shape1 A)%nat as Hshape by (apply shape1_wide; [lia|done]).
  unfold time_history_body. cbv zeta. fold A.
  rewrite decide_False by lia.
  unfold Np.column.
  rewrite (decide_True (P := (4 < Np.shape1 A)%nat)) by lia. run_result.
  rewrite (decide_True (P := (0 < length (Np.columns A 13 16))%nat))
    by (unfold Np.columns; rewrite length_fmap; lia).
  rewrite (decide_True (P := (0 < length (Np.column_values A 4))%nat))
    by (unfold Np.column_values; rewrite length_fmap; lia).
  rewrite max_abs_axis0_deck by (done || lia).
  cbn [Np.item lookup list_lookup]. run_result.
  destruct (_evaluate_damage_state self "pier_drift" _); reflexivity.
Qed.

(** The same branch when both component types have curves. *)
Lemma time_history_body_success (self : fragility_params)
    (th : Results.time_history_entry) (pier_height : R) (fP fD : fragility) :
  self !! "pier_drift" = Some fP -> self !! "deck_disp" = Some fD ->
  Np.rectangular (Results.displacements th) ->
  (1 < length (Results.displacements th))%nat ->
  exists r,
    time_history_body self th pier_height = Ok r
    /\ time_history_error r = None
    /\ max_pier_drift r
       = Np.max_abs (Np.column_values (disp_array_of (Results.displacements th)) 4)
         / pier_height
    /\ max_deck_displacement r
       = (fun j => Np.max_abs
                     (Np.column_values (disp_array_of (Results.displacements th)) j))
         <$> [13; 14; 15]%nat
    /\ pier_damage_state r = scan_states fP (max_pier_drift r) (reverse members)
    /\ deck_damage_state r
       = scan_states fD
           (Np.max_abs (Np.column_values (disp_array_of (Results.displacements th)) 14))
           (reverse members)
    /\ overall_damage_state r
       = max_by_value (pier_damage_state r) (deck_damage_state r).
Proof.
  intros HP HD Hrect Hrows.
  rewrite time_history_body_reads by done. cbv zeta.
  set (A := disp_array_of (Results.displacements th)).
  unfold _evaluate_damage_state, component. rewrite HP, HD. run_result.
  destruct (DamageEvaluatorProps.calculate_probabilities_values self
              "pier_drift" fP (Np.max_abs (Np.column_values A 4) / pier_height) HP)
    as (pp & -> & _).
  destruct (DamageEvaluatorProps.calculate_probabilities_values self
              "deck_disp" fD (Np.max_abs (Np.column_values A 14)) HD)
    as (dp & -> & _).
  run_result. eexists. split; [reflexivity|]. by cbn.
Qed.

(** Whatever the model holds, the record of the branch is the one above
    or the fallback with zero demands. *)
Lemma evaluate_time_history_cases (self : fragility_params)
    (th : Results.time_history_entry) (pier_height : R) :
  Np.rectangular (Results.displacements th) ->
  (1 < length (Results.displacements th))%nat ->
  exists r,
    evaluate_time_history self th pier_height = Ok r
    /\ ((time_history_error r = None
         /\ max_pier_drift r
            = Np.max_abs (Np.column_values (disp_array_of (Results.displacements th)) 4)
              / pier_height
         /\ max_deck_displacement r
            = (fun j => Np.max_abs
                     (Np.column_values (disp_array_of (Results.displacements th)) j))
              <$> [13; 14; 15]%nat)
        \/ exists message, r = no_time_history_damage message).
Proof.
  intros Hrect Hrows. unfold evaluate_time_history.
  rewrite time_history_body_reads by done. cbv zeta.
  repeat match goal with
  | |- context [mbind _ ?m] =>
      match m with
      | _evaluate_damage_state _ _ _ => destruct m
      | _calculate_damage_probabilities _ _ _ => destruct m
      end
  | _ => progress run_result
  end; eexists; (split; [reflexivity|]); eauto.
Qed.

(** ** Demands of the time-history branch *)

(** The demands as the specification words them: the pier-top node 3 has
    its x displacement in column 7 = 1 + 3*(3-1), the deck-midpoint node 5
    its y displacement in column 14 = 1 + 3*(5-1) + 1. *)
Definition pier_demand_spec (displacements : Np.ndarray) (pier_height : R) : R :=
  Np.max_abs (Np.column_values displacements 7) / pier_height.

Definition deck_demand_spec (displacements : Np.ndarray) : R :=
  Np.max_abs (Np.column_values displacements 14).

(** Two samples of a full-width record: only the pier top moves, by 0.3
    in x at the second sample. *)
Definition pier_top_moves : Np.ndarray :=
  [ [0; 0; 0; 0; 0; 0; 0; 0; 0; 0; 0; 0; 0; 0; 0; 0];
    [0.01; 0; 0; 0; 0; 0; 0; 0.3; 0; 0; 0; 0; 0; 0; 0; 0] ].

Definition pier_top_history : Results.time_history_entry :=
  {| Results.displacements := pier_top_moves;
     Results.element_forces := Np.zeros 2 13;
     Results.time_points := [0; 0.01];
     Results.th_error := None |}.

Definition pier_top_results : Results.analysis_results :=
  {| Results.static := None;
     Results.modal := None;
     Results.time_history := Some pier_top_history |}.

Lemma pier_top_moves_rectangular : Np.rectangular pier_top_moves.
Proof. unfold Np.rectangular, pier_top_moves. by repeat constructor. Qed.

(** C6 at a failing input: with a pier-top drift of 0.3 over a pier of
    height 10 the specification's demand is 0.03, past the Extensive
    median; the evaluation reads column 4 (node 2, a fixed support),
    reports a drift of 0 and classifies the pier NoDamage. *)
Theorem pier_drift_reads_column_4 :
  pier_demand_spec pier_top_moves 10 = 0.03
  /\ _evaluate_damage_state default_fragility "pier_drift"
       (pier_demand_spec pier_top_moves 10) = Ok EXTENSIVE
  /\ exists dr r,
       evaluate_damage_from_results default_fragility
         pier_top_results 10 = Ok dr
       /\ dr_time_history dr = Some r
       /\ time_history_error r = None
       /\ max_pier_drift r = 0
       /\ pier_damage_state r = NO_DAMAGE.
Proof.
  assert (pier_demand_spec pier_top_moves 10 = 0.03) as Hspec.
  { unfold pier_demand_spec, pier_top_moves. cbn.
    rewrite Rabs_R0, Rabs_right, Rmax_right by lra. lra. }
  split; [done|]. split.
  - rewrite Hspec. unfold _evaluate_damage_state, component.
    rewrite DamageEvaluatorProps.default_pier_drift. run_result. f_equal.
    rewrite DamageEvaluatorProps.reverse_members. unfold pier_drift_default.
    cbn [scan_states].
    repeat match goal with
    | |- context [decide (?a = ?b)] => destruct (decide (a = b)) as [?|_]; [done|]
    end.
    simplify_map_eq. cbn [median].
    repeat (destruct Rge_dec; try lra). done.
  - destruct (evaluate_damage_from_results_branches
                default_fragility pier_top_results 10)
      as (dr & Hdr & _ & _ & Hth & _).
    destruct (Hth _ eq_refl) as (r & Hr & Hdrth).
    exists dr, r. split; [done|]. split; [done|].
    destruct (time_history_body_success default_fragility
                pier_top_history 10 _ _ DamageEvaluatorProps.default_pier_drift
                DamageEvaluatorProps.default_deck_disp
                pier_top_moves_rectangular ltac:(cbn; lia))
      as (r' & Hbody & Herr & Hdrift & _ & Hpier & _).
    unfold evaluate_time_history in Hr. rewrite Hbody in Hr.
    cbn [try_except] in Hr. injection Hr as <-.
    assert (max_pier_drift r' = 0) as Hzero.
    { rewrite Hdrift. cbn [Results.displacements pier_top_history].
      assert (disp_array_of pier_top_moves = pier_top_moves) as ->
        by (unfold disp_array_of; rewrite decide_False; [done|cbn; lia]).
      cbn. rewrite Rabs_R0, Rmax_left by lra. lra. }
    split; [done|]. split; [done|].
    rewrite Hpier, Hzero. rewrite DamageEvaluatorProps.reverse_members.
    unfold pier_drift_default. cbn [scan_states].
    repeat match goal with
    | |- context [decide (?a = ?b)] => destruct (decide (a = b)) as [?|_]; [done|]
    end.
    simplify_map_eq. cbn [median].
    repeat (destruct Rge_dec; try lra). done.
Qed.

(** C7: a displacement array with more than one row and fewer than 16
    columns does not make the evaluation raise.  The evaluation extends
    every row with zeros to 16 entries and reads its demands from the
    extended array: when both component types have curves the record
    carries no error, the pier drift is the largest absolute value of
    column 4 of the extended array divided by the pier height, the deck
    displacements are the largest absolute values of its columns 13, 14
    and 15, and the states are the classifications of these demands.  A
    column the record has is read unchanged and a column it does not have
    is a column of zeros, so the demands read from columns it does not
    have (the pier drift when there are at most 4 columns, entry j of the
    deck displacement when there are at most 13 + j) are 0. *)
Theorem evaluate_short_rows (self : fragility_params)
    (results : Results.analysis_results) (th : Results.time_history_entry)
    (pier_height : R) :
  Results.time_history results = Some th ->
  Np.rectangular (Results.displacements th) ->
  (1 < length (Results.displacements th))%nat ->
  (Np.shape1 (Results.displacements th) < 16)%nat ->
  pier_height <> 0 ->
  let padded := Np.pad_columns 16 (Results.displacements th) in
  (forall i row,
      Results.displacements th !! i = Some row ->
      disp_array_of (Results.displacements th) !! i
      = Some (row ++ replicate (16 - Np.shape1 (Results.displacements th)) 0))
  /\ disp_array_of (Results.displacements th) = padded
  /\ (forall j, (j < Np.shape1 (Results.displacements th))%nat ->
        Np.column_values padded j = Np.column_values (Results.displacements th) j)
  /\ (forall j, (Np.shape1 (Results.displacements th) <= j)%nat ->
        Forall (fun x => x = 0) (Np.column_values padded j))
  /\ exists dr r,
       evaluate_damage_from_results self results pier_height = Ok dr
       /\ dr_time_history dr = Some r
       /\ (forall fP fD,
             self !! "pier_drift" = Some fP -> self !! "deck_disp" = Some fD ->
             time_history_error r = None
             /\ max_pier_drift r
                = Np.max_abs (Np.column_values padded 4) / pier_height
             /\ max_deck_displacement r
                = [Np.max_abs (Np.column_values padded 13);
                   Np.max_abs (Np.column_values padded 14);
                   Np.max_abs (Np.column_values padded 15)]
             /\ pier_damage_state r
                = scan_states fP (max_pier_drift r) (reverse members)
             /\ deck_damage_state r
                = scan_states fD (Np.max_abs (Np.column_values padded 14))
                    (reverse members)
             /\ overall_damage_state r
                = max_by_value (pier_damage_state r) (deck_damage_state r))
       /\ (is_Some (self !! "pier_drift") -> is_Some (self !! "deck_disp") ->
           time_history_error r = None)
       /\ ((Np.shape1 (Results.displacements th) <= 4)%nat -> max_pier_drift r = 0)
       /\ (forall j, (j < 3)%nat ->
             (Np.shape1 (Results.displacements th) <= 13 + j)%nat ->
             max_deck_displacement r !! j = Some 0).
Proof.
  intros Hth Hrect Hrows Hshort Hheight padded.
  assert (disp_array_of (Results.displacements th) = padded) as Hpadded
    by (unfold disp_array_of; by rewrite decide_True).
  split; [|split; [done|split; [|split]]].
  - intros i row Hi. unfold disp_array_of. rewrite decide_True by done.
    by apply pad_columns_row.
  - intros j _. rewrite <- Hpadded. by apply column_values_disp_array.
  - intros j Hj. rewrite <- Hpadded. by apply padded_column_zero.
  - destruct (evaluate_damage_from_results_branches self results pier_height)
      as (dr & Hdr & _ & _ & Hbranch & _).
    destruct (Hbranch _ Hth) as (r & Hr & Hdrth).
    exists dr, r. split; [done|]. split; [done|].
    assert (forall fP fD,
              self !! "pier_drift" = Some fP -> self !! "deck_disp" = Some fD ->
              time_history_error r = None
              /\ max_pier_drift r
                 = Np.max_abs (Np.column_values padded 4) / pier_height
              /\ max_deck_displacement r
                 = [Np.max_abs (Np.column_values padded 13);
                    Np.max_abs (Np.column_values padded 14);
                    Np.max_abs (Np.column_values padded 15)]
              /\ pier_damage_state r
                 = scan_states fP (max_pier_drift r) (reverse members)
              /\ deck_damage_state r
                 = scan_states fD (Np.max_abs (Np.column_values padded 14))
                     (reverse members)
              /\ overall_damage_state r
                 = max_by_value (pier_damage_state r) (deck_damage_state r))
      as Hsuccess.
    { intros fP fD HP HD.
      destruct (time_history_body_success self th pier_height fP fD HP HD
                  Hrect Hrows)
        as (r' & Hbody & Herr & Hdrift & Hdeck & Hpier & Hdeckstate & Hoverall).
      unfold evaluate_time_history in Hr. rewrite Hbody in Hr.
      cbn [try_except] in Hr. injection Hr as <-.
      rewrite Hpadded in Hdrift, Hdeck, Hdeckstate. done. }
    split; [exact Hsuccess|]. split.
    + intros [fP HP] [fD HD]. by destruct (Hsuccess fP fD HP HD).
    + destruct (evaluate_time_history_cases self th pier_height Hrect Hrows)
        as (r' & Hr' & Hcases).
      rewrite Hr in Hr'. injection Hr' as <-.
      destruct Hcases as [(_ & Hdrift & Hdeck) | [message ->]].
      * split.
        -- intros Hcols. rewrite Hdrift.
           rewrite max_abs_zeros by (apply padded_column_zero; (done || lia)).
           unfold Rdiv. apply Rmult_0_l.
        -- intros j Hj Hcols. rewrite Hdeck.
           destruct j as [|[|[|j]]]; [| | |lia]; cbn [fmap list_fmap lookup list_lookup];
             f_equal; apply max_abs_zeros, padded_column_zero; (done || lia).
      * split; [done|]. intros j Hj _.
        by destruct j as [|[|[|j]]]; [| | |lia].
Qed.

(** C8: a time-history result whose displacement array has at most one
    row is reported with zero pier drift, zero deck displacements and
    NoDamage for the pier, the deck and the structure. *)
Theorem evaluate_without_samples (self : fragility_params)
    (results : Results.analysis_results) (th : Results.time_history_entry)
    (pier_height : R) :
  Results.time_history results = Some th ->
  (length (Results.displacements th) <= 1)%nat ->
  exists dr r,
    evaluate_damage_from_results self results pier_height = Ok dr
    /\ dr_time_history dr = Some r
    /\ max_pier_drift r = 0
    /\ max_deck_displacement r = [0; 0; 0]
    /\ pier_damage_state r = NO_DAMAGE
    /\ deck_damage_state r = NO_DAMAGE
    /\ overall_damage_state r = NO_DAMAGE.
Proof.
  intros Hth Hrows.
  destruct (evaluate_damage_from_results_branches self results pier_height)
    as (dr & Hdr & _ & _ & Hbranch & _).
  destruct (Hbranch _ Hth) as (r & Hr & Hdrth).
  exists dr, r. split; [done|]. split; [done|].
  unfold evaluate_time_history, time_history_body in Hr. cbv zeta in Hr.
  rewrite decide_True in Hr by done. run_result in Hr.
  by injection Hr as <-.
Qed.

(** ** The static branch on a malformed result *)

(** The shapes of a static result the lookup of the vertical deck
    displacement fails on: no entry for node 5, a vector with fewer than
    two entries, or an entry that cannot be indexed. *)
Inductive malformed_static : Py.value -> Prop :=
| node5_missing (top by_node : list (string * Py.value)) :
    assoc "displacements" top = Some (VDict by_node) ->
    assoc "node5" by_node = None ->
    malformed_static (VDict top)
| node5_too_short (top by_node : list (string * Py.value)) (xs : list Py.value) :
    assoc "displacements" top = Some (VDict by_node) ->
    assoc "node5" by_node = Some (VList xs) ->
    (length xs <= 1)%nat ->
    malformed_static (VDict top)
| node5_none (top by_node : list (string * Py.value)) :
    assoc "displacements" top = Some (VDict by_node) ->
    assoc "node5" by_node = Some VNone ->
    malformed_static (VDict top)
| node5_scalar (top by_node : list (string * Py.value)) (x : R) :
    assoc "displacements" top = Some (VDict by_node) ->
    assoc "node5" by_node = Some (VFloat x) ->
    malformed_static (VDict top).

(** C10: when the static raw result is present and malformed, the
    evaluation does not raise; the static assessment holds a deck
    displacement of 0, the state NoDamage and the text of the failure. *)
Theorem evaluate_malformed_static (self : fragility_params)
    (results : Results.analysis_results) (static_result : Py.value)
    (pier_height : R) :
  Results.static results = Some static_result ->
  malformed_static static_result ->
  exists dr e,
    evaluate_damage_from_results self results pier_height = Ok dr
    /\ static_body self static_result = Raise e
    /\ dr_static dr
       = Some {| deck_displacement := 0; damage_state := NO_DAMAGE;
                 static_error := Some (str e) |}.
Proof.
  intros Hstatic Hbad.
  destruct (evaluate_damage_from_results_branches self results pier_height)
    as (dr & Hdr & Hbranch & _).
  destruct (Hbranch _ Hstatic) as (r & Hr & Hdrs).
  assert (exists e, static_body self static_result = Raise e) as [e He].
  { destruct Hbad as [top by_node Htop Hnode | top by_node xs Htop Hnode Hlen
                     | top by_node Htop Hnode | top by_node x Htop Hnode];
      unfold static_body, getitem_str; rewrite Htop; run_result;
      rewrite Hnode; run_result; cbn [getitem_int]; [by eexists| |by eexists..].
    rewrite lookup_ge_None_2 by lia. by eexists. }
  exists dr, e. split; [done|]. split; [done|].
  unfold evaluate_static in Hr. rewrite He in Hr. cbn [try_except] in Hr.
  rewrite (static_body_raises _ _ _ He) in Hr. run_result in Hr.
  injection Hr as <-. done.
Qed.

(** ** The theorems at concrete results *)

(** Two samples of a record that stops after node 3 (10 columns). *)
Definition ten_columns : Np.ndarray :=
  [ [0; 0; 0; 0; 0; 0; 0; 0; 0; 0];
    [0.01; 0; 0; 0; 0.02; 0; 0; 0.3; 0; 0] ].

Definition ten_columns_history : Results.time_history_entry :=
  {| Results.displacements := ten_columns;
     Results.element_forces := Np.zeros 2 13;
     Results.time_points := [0; 0.01];
     Results.th_error := None |}.

Definition ten_columns_results : Results.analysis_results :=
  {| Results.static := None;
     Results.modal := None;
     Results.time_history := Some ten_columns_history |}.

Lemma ten_columns_rectangular : Np.rectangular ten_columns.
Proof. unfold Np.rectangular, ten_columns. by repeat constructor. Qed.

(** The theorem at that record, with the default curves: the pier drift
    is read from column 4, which the record has (0.02 over a height of
    10), and the deck displacements from columns it does not have. *)
Lemma evaluate_short_rows_witness :
  exists dr r,
    evaluate_damage_from_results default_fragility ten_columns_results 10 = Ok dr
    /\ dr_time_history dr = Some r
    /\ time_history_error r = None
    /\ max_pier_drift r = 0.002
    /\ max_deck_displacement r = [0; 0; 0]
    /\ pier_damage_state r = NO_DAMAGE
    /\ deck_damage_state r = NO_DAMAGE.
Proof.
  destruct (evaluate_short_rows default_fragility ten_columns_results
              ten_columns_history 10 eq_refl ten_columns_rectangular
              ltac:(cbn; lia) ltac:(cbn; lia) ltac:(lra))
    as (_ & _ & _ & _ & dr & r & Hdr & Hth & Hsuccess & _).
  destruct (Hsuccess _ _ DamageEvaluatorProps.default_pier_drift
              DamageEvaluatorProps.default_deck_disp)
    as (Herr & Hdrift & Hdeck & Hpier & Hdeckstate & _).
  exists dr, r. split; [done|]. split; [done|]. split; [done|].
  assert (Np.max_abs (Np.column_values (Np.pad_columns 16 ten_columns) 4) = 0.02)
    as H4.
  { cbn. rewrite Rabs_R0, Rabs_right, Rmax_right by lra. lra. }
  assert (forall j, (10 <= j)%nat ->
            Np.max_abs (Np.column_values (Np.pad_columns 16 ten_columns) j) = 0)
    as Hzero.
  { intros j Hj. apply max_abs_zeros.
    assert (disp_array_of ten_columns = Np.pad_columns 16 ten_columns) as <-
      by (unfold disp_array_of; by rewrite decide_True by (cbn; lia)).
    apply padded_column_zero; [apply ten_columns_rectangular|cbn; lia|cbn; lia]. }
  cbn [Results.displacements ten_columns_history] in *.
  rewrite H4 in Hdrift.
  rewrite (Hzero 13%nat), (Hzero 14%nat), (Hzero 15%nat) in Hdeck by lia.
  rewrite (Hzero 14%nat) in Hdeckstate by lia.
  assert (max_pier_drift r = 0.002) as Hvalue by (rewrite Hdrift; lra).
  split; [done|]. split; [done|].
  rewrite Hpier, Hdeckstate, Hvalue.
  rewrite DamageEvaluatorProps.reverse_members.
  unfold pier_drift_default, deck_disp_default. cbn [scan_states].
  repeat match goal with
  | |- context [decide (?a = ?b)] => destruct (decide (a = b)) as [?|_]; [done|]
  end.
  simplify_map_eq. cbn [median].
  repeat (destruct Rge_dec; try lra). done.
Defined.

(** The fallback the runner stores when no displacement was recorded. *)
Definition no_samples_history : Results.time_history_entry :=
  {| Results.displacements := Np.zeros 1 16;
     Results.element_forces := Np.zeros 1 13;
     Results.time_points := [0];
     Results.th_error := None |}.

Definition no_samples_results : Results.analysis_results :=
  {| Results.static := None;
     Results.modal := None;
     Results.time_history := Some no_samples_history |}.

Lemma evaluate_without_samples_witness :
  exists dr r,
    evaluate_damage_from_results default_fragility
      no_samples_results 10 = Ok dr
    /\ dr_time_history dr = Some r
    /\ max_pier_drift r = 0
    /\ max_deck_displacement r = [0; 0; 0]
    /\ pier_damage_state r = NO_DAMAGE
    /\ deck_damage_state r = NO_DAMAGE
    /\ overall_damage_state r = NO_DAMAGE.
Proof.
  apply (evaluate_without_samples default_fragility
           no_samples_results no_samples_history 10).
  - reflexivity.
  - cbn. lia.
Defined.

(** A static result whose node-5 vector holds one entry only. *)
Definition short_static : Py.value :=
  VDict [("displacements", VDict [("node5", VList [VFloat 0.1])])].

Definition short_static_results : Results.analysis_results :=
  {| Results.static := Some short_static;
     Results.modal := None;
     Results.time_history := None |}.

Lemma evaluate_malformed_static_witness :
  exists dr e,
    evaluate_damage_from_results default_fragility
      short_static_results 10 = Ok dr
    /\ static_body default_fragility short_static = Raise e
    /\ dr_static dr
       = Some {| deck_displacement := 0; damage_state := NO_DAMAGE;
                 static_error := Some (str e) |}.
Proof.
  apply (evaluate_malformed_static default_fragility
           short_static_results short_static 10).
  - reflexivity.
  - eapply node5_too_short; [reflexivity|reflexivity|cbn; lia].
Defined.

End EvaluationProps.

(* ===================================================================== *)
(** * Properties of the orchestrator                                      *)
(* ===================================================================== *)

Module BridgeEvaluatorProps.
Import Results DamageEvaluator AnalysisRunner BridgeEvaluator.

(** ** The choice of the analysis types *)

(** What the automatic choice holds, for every configuration: the modal
    analysis is chosen exactly when there is an "analysis" section. *)
Lemma select_analysis_types_auto (c : config) :
  ("static" ∈ select_analysis_types c None
     <-> exists a, analysis c = Some a /\ is_Some (static_load a))
  /\ ("time_history" ∈ select_analysis_types c None
     <-> exists a, analysis c = Some a /\ is_Some (ground_motion a))
  /\ ("modal" ∈ select_analysis_types c None <-> is_Some (analysis c)).
Proof.
  unfold select_analysis_types.
  destruct (analysis c) as [a|].
  - split_and!.
    + destruct (static_load a) as [l|] eqn:Hl, (ground_motion a) as [g|];
        cbn [app]; rewrite ?elem_of_cons, ?elem_of_nil;
        (split; [intros H|intros (a' & [= <-] & [x Hx])]); eauto;
        try congruence; destruct H as [H|H]; try destruct H as [H|H]; done.
    + destruct (static_load a) as [l|], (ground_motion a) as [g|] eqn:Hg;
        cbn [app]; rewrite ?elem_of_cons, ?elem_of_nil;
        (split; [intros H|intros (a' & [= <-] & [x Hx])]); eauto;
        try congruence; destruct H as [H|H]; try destruct H as [H|H]; done.
    + split; [eauto|intros _].
      rewrite !elem_of_app. right; right. apply list_elem_of_here.
  - rewrite !elem_of_nil. split_and!; split; try done.
    all: first [by intros (? & ? & _) | by intros [? ?]].
Qed.

(** A configuration with the required keys and no "analysis" section. *)
Definition bare_config : config :=
  {| span := Some 30; height := Some 10;
     material := Some [("E", 30000000000); ("fc", 30000000)];
     analysis := None; num_modes := None; fragility := None; output := None |}.

(** C5 at a failing input: for a configuration without an "analysis"
    section and no explicit list, the choice is empty, so the modal
    analysis is not chosen. *)
Theorem modal_skipped_without_analysis_section :
  select_analysis_types bare_config None = []
  /\ "modal" ∉ select_analysis_types bare_config None.
Proof. split; [reflexivity|]. cbn. set_solver. Qed.

(** ** The conversion of the fragility configuration *)

(** The strings on which [upper] is Python's [str.upper]. *)
Definition is_ascii (s : string) : Prop :=
  Forall (fun c => (Ascii.nat_of_ascii c < 128)%nat) (String.list_ascii_of_string s).

Definition ascii_names (components : list (string * list (string * curve))) : Prop :=
  Forall (fun entry => Forall (fun level => is_ascii level.1) entry.2) components.

(** A damage-state name the enumeration knows, compared without case. *)
Definition known_name (damage_name : string) : Prop :=
  exists state, upper damage_name = name state.

Lemma getattr_cases (attr : string) :
  (exists state, attr = name state /\ getattr_DamageState attr = Ok state)
  \/ ((forall state, attr <> name state)
      /\ getattr_DamageState attr = Raise (AttributeError attr)).
Proof.
  unfold getattr_DamageState.
  destruct (List.find _ members) as [state|] eqn:Hfind.
  - left. exists state. apply find_some in Hfind as [_ Heq].
    apply String.eqb_eq in Heq. by rewrite Heq.
  - right. split; [|done]. intros state ->.
    eapply find_none with (x := state) in Hfind.
    + by rewrite String.eqb_refl in Hfind.
    + destruct state; cbn; tauto.
Qed.

Lemma convert_levels_snoc (levels : list (string * curve)) (n : string) (p : curve) :
  convert_levels (levels ++ [(n, p)])
  = (converted ← convert_levels levels;
     damage_state ← getattr_DamageState (upper n);
     mret (<[damage_state := p]> converted)).
Proof. unfold convert_levels. by rewrite foldl_snoc. Qed.

Lemma convert_components_snoc
    (components : list (string * list (string * curve)))
    (ct : string) (levels : list (string * curve)) :
  convert_components (components ++ [(ct, levels)])
  = (fragility_config ← convert_components components;
     converted ← convert_levels levels;
     mret (<[ct := converted]> fragility_config)).
Proof. unfold convert_components. by rewrite foldl_snoc. Qed.

(** The conversion of one component: it raises [AttributeError] on a name
    that is not known, and otherwise stores every curve under the state
    its name spells. *)
Lemma convert_levels_cases (levels : list (string * curve)) :
  (Forall (fun entry => known_name entry.1) levels
   /\ exists f : gmap DamageState curve,
        convert_levels levels = Ok f
        /\ (forall state p, f !! state = Some p ->
              exists n, (n, p) ∈ levels /\ upper n = name state)
        /\ (NoDup (upper <$> levels.*1) ->
            forall n p state, (n, p) ∈ levels -> upper n = name state ->
              f !! state = Some p))
  \/ (Exists (fun entry => ~ known_name entry.1) levels
      /\ exists attr, convert_levels levels = Raise (AttributeError attr)
                      /\ forall state, attr <> name state).
Proof.
  induction levels as [|[n p] levels IH] using rev_ind.
  - left. split; [constructor|]. exists ∅. split; [done|]. split.
    + intros state p Hp. by rewrite lookup_empty in Hp.
    + intros _ n p state Hin. by apply elem_of_nil in Hin.
  - rewrite convert_levels_snoc.
    destruct IH as [(Hall & f & -> & Hfrom & Hto) | (Hsome & attr & -> & Hattr)].
    + cbn [mbind result_bind].
      destruct (getattr_cases (upper n)) as [(state & Hname & ->) | (Hunknown & ->)].
      * left. split.
        { apply Forall_app. split; [done|]. constructor; [|constructor].
          by exists state. }
        eexists. split; [reflexivity|]. split.
        -- intros state' p' Hp'. apply lookup_insert_Some in Hp' as [[<- <-]|[_ Hp']].
           ++ exists n. split; [|done]. apply elem_of_app. right. apply list_elem_of_here.
           ++ destruct (Hfrom _ _ Hp') as (n' & Hin & Hn').
              exists n'. split; [|done]. apply elem_of_app. by left.
        -- rewrite fmap_app, fmap_app. cbn [fmap list_fmap fst].
           intros Hnodup n' p' state' Hin Hn'.
           apply NoDup_app in Hnodup as (Hnodup & Hfresh & _).
           apply elem_of_app in Hin as [Hin | Hin].
           ++ rewrite lookup_insert_ne; [by eapply Hto|].
              intros <-. apply (Hfresh (upper n')).
              ** apply list_elem_of_fmap. exists n'. split; [done|].
                 apply list_elem_of_fmap. by exists (n', p').
              ** rewrite Hn', <- Hname. apply list_elem_of_here.
           ++ apply list_elem_of_singleton in Hin as [= -> ->].
              assert (state' = state) as -> by (apply DamageEvaluatorProps.name_inj; congruence).
              apply lookup_insert_eq.
      * right. split.
        { apply Exists_app. right. constructor. intros [state Hstate].
          by apply (Hunknown state). }
        by exists (upper n).
    + right. split; [apply Exists_app; by left|]. by exists attr.
Qed.

Lemma convert_components_cases
    (components : list (string * list (string * curve))) :
  (Forall (fun entry => Forall (fun level => known_name level.1) entry.2) components
   /\ exists fp : gmap string (gmap DamageState curve),
        convert_components components = Ok fp
        /\ (size fp = 0%nat <-> components = [])
        /\ (forall ct, is_Some (fp !! ct) <-> ct ∈ components.*1)
        /\ (NoDup components.*1 ->
            forall ct levels, (ct, levels) ∈ components ->
              exists f, fp !! ct = Some f /\ convert_levels levels = Ok f))
  \/ (Exists (fun entry => Exists (fun level => ~ known_name level.1) entry.2) components
      /\ exists attr, convert_components components = Raise (AttributeError attr)
                      /\ forall state, attr <> name state).
Proof.
  induction components as [|[ct levels] components IH] using rev_ind.
  - left. split; [constructor|]. exists ∅. split; [done|]. split; [|split].
    + by rewrite map_size_empty.
    + intros ct. rewrite lookup_empty. cbn. split; [by intros [? ?]|].
      intros H. by apply elem_of_nil in H.
    + intros _ ct levels Hin. by apply elem_of_nil in Hin.
  - rewrite convert_components_snoc.
    destruct IH as [(Hall & fp & -> & Hsize & Hdom & Hto) | (Hsome & attr & -> & Hattr)].
    + cbn [mbind result_bind].
      destruct (convert_levels_cases levels)
        as [(Hknown & f & Hf & _) | (Hunknown & attr & Hraise & Hattr)].
      * left. split.
        { apply Forall_app. split; [done|]. by constructor. }
        rewrite Hf. cbn [mbind result_bind mret result_ret].
        eexists. split; [reflexivity|]. split; [|split].
        -- split.
           ++ intros Hzero. apply map_size_empty_iff in Hzero.
              by apply insert_non_empty in Hzero.
           ++ intros Hnil. by apply app_nil in Hnil as [_ [=]].
        -- intros ct'. rewrite fmap_app, elem_of_app. cbn [fmap list_fmap fst].
           rewrite list_elem_of_singleton, <- Hdom.
           destruct (decide (ct = ct')) as [<-|Hne].
           ++ rewrite lookup_insert_eq. split; [by right|by eexists].
           ++ rewrite lookup_insert_ne by done. split; [by left|].
              by intros [?|?].
        -- rewrite fmap_app. cbn [fmap list_fmap fst].
           intros Hnodup ct' levels' Hin.
           apply NoDup_app in Hnodup as (Hnodup & Hfresh & _).
           apply elem_of_app in Hin as [Hin | Hin].
           ++ rewrite lookup_insert_ne; [by eapply Hto|].
              intros <-. apply (Hfresh ct).
              ** apply list_elem_of_fmap. by exists (ct, levels').
              ** apply list_elem_of_here.
           ++ apply list_elem_of_singleton in Hin as [= -> ->].
              exists f. by rewrite lookup_insert_eq.
      * right. split.
        { apply Exists_app. right. by constructor. }
        rewrite Hraise. by exists attr.
    + right. split; [apply Exists_app; by left|]. by exists attr.
Qed.

Lemma init_with_required_keys (c : config) :
  is_Some (span c) -> is_Some (height c) -> is_Some (material c) ->
  init (Some c)
  = (fragility_params ← _convert_fragility_config c;
     mret {| self_config := c;
             damage_evaluator := DamageEvaluator.init fragility_params;
             analysis_runner := Results.empty |}).
Proof.
  intros [x Hx] [y Hy] [z Hz]. unfold init, truthy, _initialize_components.
  rewrite Hx, Hy, Hz. cbn [require mbind result_bind].
  rewrite bool_decide_eq_true_2 by by eexists. done.
Qed.

(** C9, as amended: when the fragility configuration holds a damage-state
    name that matches no member of DamageState (compared without case),
    the construction of the evaluator fails with the AttributeError of the
    member lookup, raised to the caller, and no evaluator exists to run a
    phase; when all names are known the construction succeeds with a
    runner that has run nothing, and the converted curves are installed
    if the configuration names at least one component type, the built-in
    default curves if it names none.  The configuration holds the keys the
    constructor reads first, and its state names are ASCII. *)
Theorem convert_fragility_config_spec (c : config)
    (components : list (string * list (string * curve))) :
  is_Some (span c) -> is_Some (height c) -> is_Some (material c) ->
  fragility c = Some components ->
  ascii_names components ->
  (Exists (fun entry => Exists (fun level => ~ known_name level.1) entry.2) components ->
   exists attr,
     init (Some c) = Raise (AttributeError attr)
     /\ forall state, attr <> name state)
  /\ (Forall (fun entry => Forall (fun level => known_name level.1) entry.2) components ->
      exists ev fp,
        init (Some c) = Ok ev
        /\ convert_components components = Ok fp
        /\ analysis_runner ev = Results.empty
        /\ (components <> [] -> damage_evaluator ev = fp)
        /\ (components = [] -> damage_evaluator ev = default_fragility)
        /\ (NoDup components.*1 ->
            forall ct levels, (ct, levels) ∈ components ->
              exists f,
                fp !! ct = Some f
                /\ (NoDup (upper <$> levels.*1) ->
                    forall n p state, (n, p) ∈ levels -> upper n = name state ->
                      f !! state = Some p))).
Proof.
  intros Hspan Hheight Hmaterial Hfragility _.
  rewrite init_with_required_keys by done.
  unfold _convert_fragility_config. rewrite Hfragility.
  destruct (convert_components_cases components)
    as [(Hknown & fp & Hfp & Hsize & _ & Hto) | (Hunknown & attr & Hraise & Hattr)].
  - split.
    + intros Hbad. exfalso.
      apply Exists_exists in Hbad as (entry & Hentry & Hbad).
      apply Exists_exists in Hbad as (level & Hlevel & Hbad).
      apply Hbad. eapply Forall_forall in Hknown; [|done].
      eapply Forall_forall in Hknown; done.
    + intros _. rewrite Hfp. cbn [mbind result_bind mret result_ret].
      eexists _, fp. split; [reflexivity|]. split; [done|].
      cbn [analysis_runner damage_evaluator DamageEvaluator.init].
      split; [done|]. split; [|split].
      * intros Hne. rewrite bool_decide_eq_false_2; [done|]. by rewrite Hsize.
      * intros Hnil. rewrite bool_decide_eq_true_2; [done|]. by rewrite Hsize.
      * intros Hnodup ct levels Hin.
        destruct (Hto Hnodup ct levels Hin) as (f & Hlook & Hconv).
        exists f. split; [done|].
        destruct (convert_levels_cases levels)
          as [(_ & f' & Hf' & _ & Hlevels) | (_ & attr & Hraise & _)];
          [|congruence].
        rewrite Hconv in Hf'. by injection Hf' as <-.
  - split.
    + intros _. rewrite Hraise. by exists attr.
    + intros Hknown. exfalso.
      apply Exists_exists in Hunknown as (entry & Hentry & Hbad).
      apply Exists_exists in Hbad as (level & Hlevel & Hbad).
      apply Hbad. eapply Forall_forall in Hknown; [|done].
      eapply Forall_forall in Hknown; done.
Qed.

(** A configuration that overrides two pier-drift curves, with the state
    names in mixed case. *)
Definition override_config : config :=
  {| span := Some 30; height := Some 10;
     material := Some [("E", 30000000000); ("fc", 30000000)];
     analysis := None; num_modes := None;
     fragility := Some [("pier_drift", [("slight", Curve 0.004 0.5);
                                        ("Moderate", Curve 0.008 0.5)])];
     output := None |}.

Lemma convert_fragility_config_spec_witness :
  exists ev fp,
    init (Some override_config) = Ok ev
    /\ convert_components [("pier_drift", [("slight", Curve 0.004 0.5);
                                           ("Moderate", Curve 0.008 0.5)])] = Ok fp
    /\ analysis_runner ev = Results.empty
    /\ damage_evaluator ev = fp
    /\ exists f, fp !! "pier_drift" = Some f
                 /\ f !! SLIGHT = Some (Curve 0.004 0.5)
                 /\ f !! MODERATE = Some (Curve 0.008 0.5).
Proof.
  destruct (convert_fragility_config_spec override_config
              [("pier_drift", [("slight", Curve 0.004 0.5);
                               ("Moderate", Curve 0.008 0.5)])]
              ltac:(by eexists) ltac:(by eexists) ltac:(by eexists) eq_refl
              ltac:(repeat constructor; cbn; lia))
    as [_ Hok].
  destruct Hok as (ev & fp & Hinit & Hconv & Hrunner & Hinstalled & _ & Hcurves).
  { repeat constructor; cbn; [by exists SLIGHT | by exists MODERATE]. }
  exists ev, fp. split; [done|]. split; [done|]. split; [done|].
  split; [by apply Hinstalled|].
  destruct (Hcurves ltac:(cbn; apply NoDup_singleton) "pier_drift" _
              ltac:(apply list_elem_of_here)) as (f & Hf & Hlevels).
  exists f. split; [done|].
  assert (NoDup (upper <$> [("slight", Curve 0.004 0.5);
                            ("Moderate", Curve 0.008 0.5)].*1)) as Hnodup.
  { apply (bool_decide_unpack _). by vm_compute. }
  split.
  - apply (Hlevels Hnodup "slight"); [apply list_elem_of_here|done].
  - apply (Hlevels Hnodup "Moderate"); [|done].
    apply list_elem_of_further, list_elem_of_here.
Defined.

(** A configuration whose fragility section is an empty mapping. *)
Definition empty_fragility_config : config :=
  {| span := Some 30; height := Some 10;
     material := Some [("E", 30000000000); ("fc", 30000000)];
     analysis := None; num_modes := None;
     fragility := Some [];
     output := None |}.

(** C9 fails as stated: an empty fragility mapping holds known names only
    and is converted to the empty mapping, yet the evaluator is built with
    the default curves. *)
Lemma empty_fragility_installs_defaults :
  exists ev,
    init (Some empty_fragility_config) = Ok ev
    /\ _convert_fragility_config empty_fragility_config = Ok (Some ∅)
    /\ damage_evaluator ev = default_fragility
    /\ damage_evaluator ev <> ∅.
Proof.
  eexists. split; [reflexivity|]. split; [reflexivity|].
  cbn [damage_evaluator]. split.
  - unfold DamageEvaluator.init. rewrite bool_decide_eq_true_2; [done|].
    apply map_size_empty.
  - unfold DamageEvaluator.init. rewrite bool_decide_eq_true_2 by apply map_size_empty.
    unfold default_fragility. apply insert_non_empty.
Qed.

(** ** Fault isolation in [run_analysis] *)

Section Isolation.

Variable ops : engine.
Variables start_time end_time : R.

(** The entry under "static" after the static phase: a new one when the
    model was built, the configuration has its "analysis" section and the
    solve returned; otherwise the entry that was there. *)
Definition static_after (c : config) (types : list string)
    (before : option Py.value) : option Py.value :=
  if bool_decide ("static" ∈ types) then
    match build_static ops, analysis c, static_solve ops with
    | Ok _, Some _, Ok disp_node5 =>
        Some (VDict [("displacements", VDict [("node5", disp_node5)])])
    | _, _, _ => before
    end
  else before.

(** The entry under "modal" after the modal phase: once the model was
    built the runner always stores one, the default periods with the
    error text when the eigen-solve failed. *)
Definition modal_after (c : config) (types : list string)
    (before : option modal_entry) : option modal_entry :=
  if bool_decide ("modal" ∈ types) then
    match build_modal ops with
    | Ok _ =>
        let n := default 3%nat (num_modes c) in
        match eigen_solve ops with
        | Ok eigen_values =>
            let periods := period_of eigen_values <$> seq 0 n in
            Some {| periods := periods;
                    frequencies :=
                      (fun t => if Rgt_dec t 0 then 1 / t else 0) <$> periods;
                    eigen_values := Some eigen_values;
                    modal_error := None |}
        | Raise e =>
            Some {| periods := default_periods n;
                    frequencies := (fun t => 1 / t) <$> default_periods n;
                    eigen_values := None;
                    modal_error := Some (str e) |}
        end
    | Raise _ => before
    end
  else before.

(** The entry the [try] body of [run_time_history_analysis] stores. *)
Definition transient_entry : time_history_entry :=
  match transient_solve ops with
  | Ok (disp_data, force_data) =>
      let disp_data :=
        if decide (Np.size disp_data = 0%nat) then Np.zeros 1 16 else disp_data in
      let force_data :=
        if decide (Np.size force_data = 0%nat) then Np.zeros 1 13 else force_data in
      match Np.column disp_data 0 with
      | Ok time_points =>
          match cleanup ops with
          | Ok _ => {| displacements := disp_data;
                       element_forces := force_data;
                       time_points := time_points;
                       th_error := None |}
          | Raise e => failed_time_history e
          end
      | Raise e => failed_time_history e
      end
  | Raise e => failed_time_history e
  end.

(** The time-history phase reaches the runner's [try] when the model was
    built, the configuration names the record and its time step, and the
    record was loaded. *)
Definition time_history_reached (c : config) : bool :=
  match build_time_history ops, analysis c with
  | Ok _, Some a =>
      match ground_motion a with
      | Some gm =>
          match file gm, dt gm, load_ground_motion ops with
          | Some _, Some _, Ok _ => true
          | _, _, _ => false
          end
      | None => false
      end
  | _, _ => false
  end.

Definition time_history_after (c : config) (types : list string)
    (before : option time_history_entry) : option time_history_entry :=
  if bool_decide ("time_history" ∈ types) && time_history_reached c
  then Some transient_entry
  else before.

Ltac run_phase :=
  unfold phase, catch, lift, modify, mbind, M_bind, mret, M_ret.

Lemma static_phase_runs (c : config) (types : list string) (raw : analysis_results) :
  phase "static" types (static_phase ops c) raw
  = ({| static := static_after c types (static raw);
        modal := modal raw;
        time_history := time_history raw |}, Ok ()).
Proof.
  unfold static_after, static_phase, run_static_analysis, require, set_static.
  run_phase. destruct raw as [s m t]. cbn [static modal time_history].
  destruct (bool_decide ("static" ∈ types)); [|done].
  destruct (build_static ops) as [[]|e]; [|done].
  destruct (analysis c) as [a|]; [|done].
  destruct (static_solve ops) as [d|e]; [|done].
  by destruct (getitem_int d 1).
Qed.

Lemma modal_phase_runs (c : config) (types : list string) (raw : analysis_results) :
  phase "modal" types (modal_phase ops c) raw
  = ({| static := static raw;
        modal := modal_after c types (modal raw);
        time_history := time_history raw |}, Ok ()).
Proof.
  unfold modal_after, modal_phase, run_modal_analysis, set_modal.
  run_phase. destruct raw as [s m t]. cbn [static modal time_history].
  destruct (bool_decide ("modal" ∈ types)); [|done].
  destruct (build_modal ops) as [[]|e]; [|done].
  by destruct (eigen_solve ops) as [ev|e].
Qed.

Lemma time_history_phase_runs (c : config) (types : list string)
    (raw : analysis_results) :
  phase "time_history" types (time_history_phase ops c) raw
  = ({| static := static raw;
        modal := modal raw;
        time_history := time_history_after c types (time_history raw) |}, Ok ()).
Proof.
  unfold time_history_after, time_history_reached, transient_entry,
    time_history_phase, run_time_history_analysis, require, set_time_history.
  run_phase. destruct raw as [s m t]. cbn [static modal time_history].
  destruct (bool_decide ("time_history" ∈ types)); [|done]. cbn [andb].
  destruct (build_time_history ops) as [[]|e]; [|done].
  destruct (analysis c) as [a|]; [|done].
  destruct (ground_motion a) as [gm|]; [|done].
  destruct (file gm) as [f|]; [|done].
  destruct (dt gm) as [d|]; [|done].
  destruct (load_ground_motion ops) as [acc|e]; [|done].
  destruct (transient_solve ops) as [[disp force]|e]; [|done].
  destruct (Np.column _ 0) as [tp|e]; [|done].
  by destruct (cleanup ops) as [[]|e].
Qed.

(** [run_analysis] always returns, and each raw entry is what its own
    phase left. *)
Lemma run_analysis_runs (self : evaluator) (analysis_types : option (list string)) :
  let c := self_config self in
  let types := select_analysis_types c analysis_types in
  let before := analysis_runner self in
  let raw := {| static := static_after c types (static before);
                modal := modal_after c types (modal before);
                time_history := time_history_after c types (time_history before) |} in
  run_analysis ops start_time end_time self analysis_types
  = ({| self_config := c;
        damage_evaluator := damage_evaluator self;
        analysis_runner := raw |},
     Ok {| results_analysis := raw;
           results_damage := damage_step self raw;
           results_summary := {| total_analysis_time := end_time - start_time;
                                 summary_config := c |} |}).
Proof.
  cbv zeta. unfold run_analysis. cbv zeta.
  set (c := self_config self).
  set (types := select_analysis_types c analysis_types).
  unfold mbind at 1. unfold M_bind at 1. rewrite static_phase_runs.
  unfold mbind at 1. unfold M_bind at 1. rewrite modal_phase_runs.
  unfold mbind at 1. unfold M_bind at 1. rewrite time_history_phase_runs.
  reflexivity.
Qed.

End Isolation.

(** An outcome that is an exception. *)
Definition raises {A : Type} (outcome : result A) : Prop :=
  exists e, outcome = Raise e.


(** A configuration with a static load and no ground-motion record. *)
Definition static_config : config :=
  {| span := Some 30; height := Some 10;
     material := Some [("E", 30000000000); ("fc", 30000000)];
     analysis := Some {| static_load := Some 100; ground_motion := None |};
     num_modes := None; fragility := None; output := None |}.

(** The evaluator [init] builds for it. *)
Definition static_evaluator : evaluator :=
  {| self_config := static_config;
     damage_evaluator := default_fragility;
     analysis_runner := Results.empty |}.




(** An engine whose eigen-solve fails; everything else works. *)
Definition eigen_fails : engine :=
  {| build_static := Ok (); build_modal := Ok (); build_time_history := Ok ();
     static_solve := Ok (VList [VFloat 0; VFloat (-0.01); VFloat 0]);
     eigen_solve := Raise (SolverError "eigen failed");
     load_ground_motion := Ok [];
     transient_solve := Ok ([], []);
     cleanup := Ok () |}.


End BridgeEvaluatorProps.

(* ===================================================================== *)
(** * Laws of the damage classifier                                       *)
(* ===================================================================== *)

Module DamageLaws.
Import DamageEvaluator DamageEvaluatorProps.

(** ** The enumeration *)

(** X1: lookup by value inverts [value]: [DamageState(state.value)] is
    [state], a lookup that succeeds returns the member with that value,
    and values past 4 raise [ValueError]; for every state before Complete
    the lookup [DamageState(state.value + 1)] of the probability loop
    succeeds with the next more severe state. *)
Theorem of_value_round_trip :
  (forall state, of_value (value state) = Ok state)
  /\ (forall n state, of_value n = Ok state -> value state = n)
  /\ (forall n, (4 < n)%nat -> exists msg, of_value n = Raise (ValueError msg))
  /\ (forall state, state <> COMPLETE ->
        exists next, of_value (value state + 1) = Ok next
                     /\ value next = S (value state)).
Proof.
  split_and!.
  - by intros [].
  - intros n state. do 5 (destruct n as [|n]; [by intros [= <-]|]). done.
  - intros n Hn. do 5 (destruct n as [|n]; [lia|]). by eexists.
  - intros [] Hs; try done; by eexists.
Qed.

(** ** The classification grows with the demand *)

Lemma qualifies_mono (f : fragility) (d1 d2 : R) (state : DamageState) :
  d1 <= d2 -> qualifies f d1 state -> qualifies f d2 state.
Proof.
  intros Hd (Hs & c & Hc & Hm). split; [done|]. exists c. split; [done|lra].
Qed.

(** X2: a larger demand is never classified as a less severe state,
    whatever curves the component type has. *)
Theorem evaluate_damage_state_monotone (self : fragility_params)
    (component_type : string) (f : fragility) (d1 d2 : R) :
  self !! component_type = Some f -> d1 <= d2 ->
  exists s1 s2,
    _evaluate_damage_state self component_type d1 = Ok s1
    /\ _evaluate_damage_state self component_type d2 = Ok s2
    /\ (value s1 <= value s2)%nat.
Proof.
  intros Hf Hd. unfold _evaluate_damage_state, component. rewrite Hf.
  eexists _, _. split; [reflexivity|]. split; [reflexivity|].
  destruct (scan_states_spec f d1) as [[Hq1 _] | [-> _]]; [|cbn; lia].
  destruct (scan_states_spec f d2) as [[_ Hmax] | [_ Hnone]].
  - apply Hmax. by eapply qualifies_mono.
  - exfalso. eapply Hnone, qualifies_mono; done.
Qed.

Lemma evaluate_damage_state_monotone_witness :
  exists s1 s2,
    _evaluate_damage_state default_fragility "pier_drift" 0.012 = Ok s1
    /\ _evaluate_damage_state default_fragility "pier_drift" 0.03 = Ok s2
    /\ (value s1 <= value s2)%nat.
Proof.
  apply (evaluate_damage_state_monotone default_fragility "pier_drift"
           pier_drift_default 0.012 0.03 default_pier_drift).
  lra.
Defined.

(** ** The distribution function *)

(** X3: [_standard_normal_cdf] is a distribution function: its values lie
    in [0, 1], it is strictly increasing, and it takes the value 1/2
    at 0. *)
Theorem standard_normal_cdf_distribution :
  (forall x, 0 <= _standard_normal_cdf x <= 1)
  /\ (forall x y, x < y -> _standard_normal_cdf x < _standard_normal_cdf y)
  /\ _standard_normal_cdf 0 = 1 / 2.
Proof.
  split_and!.
  - apply cdf_range.
  - intros x y Hxy. unfold _standard_normal_cdf.
    assert (0 < sqrt 2) as Hs by (apply sqrt_lt_R0; lra).
    assert (x / sqrt 2 < y / sqrt 2) as Hlt.
    { apply Rmult_lt_compat_r; [by apply Rinv_0_lt_compat|done]. }
    pose proof (ErrorFunction.math_erf_increasing _ _ Hlt). lra.
  - unfold _standard_normal_cdf.
    replace (0 / sqrt 2) with 0 by (unfold Rdiv; by rewrite Rmult_0_l).
    rewrite ErrorFunction.math_erf_0. lra.
Qed.

(** ** The median is the demand exceeded with probability one half *)

Lemma cdf_half (z : R) : 1 / 2 <= _standard_normal_cdf z <-> 0 <= z.
Proof.
  unfold _standard_normal_cdf.
  assert (0 < sqrt 2) as Hs by (apply sqrt_lt_R0; lra).
  assert (0 < / sqrt 2) as Hi by by apply Rinv_0_lt_compat.
  pose proof ErrorFunction.math_erf_0 as H0.
  split.
  - intros Hhalf. destruct (Rle_or_lt 0 z) as [|Hneg]; [done|]. exfalso.
    assert (z / sqrt 2 < 0) as Hlt by (unfold Rdiv; nra).
    pose proof (ErrorFunction.math_erf_increasing _ _ Hlt). lra.
  - intros Hz.
    assert (0 <= z / sqrt 2) as Hle by (unfold Rdiv; nra).
    pose proof (ErrorFunction.math_erf_monotone _ _ Hle). lra.
Qed.

Lemma ln_nonneg (x : R) : 0 < x -> (0 <= ln x <-> 1 <= x).
Proof.
  intros Hx. rewrite <- ln_1. split.
  - intros Hln. destruct (Rle_or_lt 1 x) as [|Hlt]; [done|]. exfalso.
    pose proof (ln_increasing x 1 Hx Hlt). lra.
  - intros H1. apply ln_monotone; lra.
Qed.

(** The exceedance probability of a curve with positive parameters is at
    least one half exactly from its median on. *)
Lemma exceedance_half (demand m b : R) :
  0 < demand -> 0 < m -> 0 < b ->
  (1 / 2 <= _standard_normal_cdf (ln (demand / m) / b) <-> m <= demand).
Proof.
  intros Hd Hm Hb. rewrite cdf_half.
  assert (0 < / b) as Hib by by apply Rinv_0_lt_compat.
  assert (0 < / m) as Him by by apply Rinv_0_lt_compat.
  assert (0 < demand / m) as Hq by (unfold Rdiv; nra).
  assert (0 <= ln (demand / m) / b <-> 0 <= ln (demand / m)) as ->.
  { unfold Rdiv at 1. split; intros; nra. }
  rewrite (ln_nonneg _ Hq).
  split; intros Hle.
  - assert (m * 1 <= m * (demand / m)) as H by nra.
    replace (m * (demand / m)) with demand in H by (field; lra). lra.
  - assert (m * / m <= demand * / m) as H by nra.
    rewrite Rinv_r in H by lra. done.
Qed.

(** Every curve of the component has a positive median and a positive
    dispersion. *)
Definition positive_curves (f : fragility) : Prop :=
  forall state c, f !! state = Some c -> 0 < median c /\ 0 < beta c.

(** A state the probability loop gives an exceedance probability of at
    least one half. *)
Definition likely (f : fragility) (demand : R) (state : DamageState) : Prop :=
  state <> NO_DAMAGE /\ is_Some (f !! state)
  /\ 1 / 2 <= get0 (exceedance f demand) (name state).

Lemma likely_qualifies (f : fragility) (demand : R) (state : DamageState) :
  positive_curves f -> (likely f demand state <-> qualifies f demand state).
Proof.
  intros Hpos. unfold likely, qualifies. split.
  - intros (Hs & [c Hc] & Hhalf). split; [done|]. exists c. split; [done|].
    rewrite exceedance_get0 in Hhalf by done.
    unfold P_exceed_spec in Hhalf. rewrite Hc in Hhalf.
    destruct (Hpos _ _ Hc) as [Hm Hb].
    destruct (Rgt_dec demand 0) as [Hd|Hd]; [|lra].
    fold (_standard_normal_cdf (ln (demand / median c) / beta c)) in Hhalf.
    by apply exceedance_half in Hhalf.
  - intros (Hs & c & Hc & Hle). split; [done|]. split; [by eexists|].
    rewrite exceedance_get0 by done.
    unfold P_exceed_spec. rewrite Hc.
    destruct (Hpos _ _ Hc) as [Hm Hb].
    destruct (Rgt_dec demand 0) as [Hd|Hd]; [|lra].
    fold (_standard_normal_cdf (ln (demand / median c) / beta c)).
    apply exceedance_half; (done || lra).
Qed.

Lemma default_pier_positive : positive_curves pier_drift_default.
Proof.
  intros state c. unfold pier_drift_default.
  destruct state; intros Hc; simplify_map_eq; cbn; lra.
Qed.

(** X4: when every curve of the component has a positive median and a
    positive dispersion, the state the threshold classification returns
    is the most severe state whose exceedance probability, as the
    probability operation computes it, is at least one half, and NoDamage
    when no state has one. *)
Theorem classification_is_median_exceedance (self : fragility_params)
    (component_type : string) (f : fragility) (demand : R) :
  self !! component_type = Some f -> positive_curves f ->
  exists state,
    _evaluate_damage_state self component_type demand = Ok state
    /\ ((likely f demand state
         /\ forall s, likely f demand s -> (value s <= value state)%nat)
        \/ (state = NO_DAMAGE /\ forall s, ~ likely f demand s)).
Proof.
  intros Hf Hpos. unfold _evaluate_damage_state, component. rewrite Hf.
  eexists. split; [reflexivity|].
  destruct (scan_states_spec f demand) as [[Hq Hmax] | [Hno Hnone]].
  - left. split; [by apply likely_qualifies|].
    intros s Hs. by apply Hmax, likely_qualifies.
  - right. split; [done|]. intros s Hs. by apply (Hnone s), likely_qualifies.
Qed.

Lemma classification_is_median_exceedance_witness :
  exists state,
    _evaluate_damage_state default_fragility "pier_drift" 0.012 = Ok state
    /\ ((likely pier_drift_default 0.012 state
         /\ forall s, likely pier_drift_default 0.012 s
                      -> (value s <= value state)%nat)
        \/ (state = NO_DAMAGE /\ forall s, ~ likely pier_drift_default 0.012 s)).
Proof.
  exact (classification_is_median_exceedance default_fragility "pier_drift"
           pier_drift_default 0.012 default_pier_drift default_pier_positive).
Defined.

(** ** Demands that are not positive *)

(** X5: for a demand that is not positive the probability operation
    returns NoDamage with probability 1 and every other state with
    probability 0, whatever the curves are. *)
Theorem no_demand_no_damage (self : fragility_params)
    (component_type : string) (f : fragility) (demand : R) :
  self !! component_type = Some f -> demand <= 0 ->
  exists probs : gmap string R,
    _calculate_damage_probabilities self component_type demand = Ok probs
    /\ probs !! name NO_DAMAGE = Some 1
    /\ forall state, state <> NO_DAMAGE -> probs !! name state = Some 0.
Proof.
  intros Hf Hd.
  destruct (calculate_probabilities_values self component_type f demand Hf)
    as (probs & Hcalc & Hval & _).
  exists probs. split; [done|].
  assert (forall state, P_exceed_spec f demand state = 0) as Hzero.
  { intros state. unfold P_exceed_spec.
    destruct (f !! state); [|done]. destruct (Rgt_dec demand 0); [lra|done]. }
  split.
  - rewrite Hval. cbn [P_state_spec]. rewrite Hzero. f_equal. lra.
  - intros state Hs. rewrite Hval.
    destruct state; cbn [P_state_spec next_more_severe]; try done;
      rewrite !Hzero; f_equal; lra.
Qed.

Lemma no_demand_no_damage_witness :
  exists probs : gmap string R,
    _calculate_damage_probabilities default_fragility "deck_disp" 0 = Ok probs
    /\ probs !! name NO_DAMAGE = Some 1
    /\ forall state, state <> NO_DAMAGE -> probs !! name state = Some 0.
Proof.
  apply (no_demand_no_damage default_fragility "deck_disp" deck_disp_default 0
           default_deck_disp).
  lra.
Defined.

(** ** The probabilities as functions of the demand *)

Lemma P_exceed_monotone (f : fragility) (d1 d2 : R) (state : DamageState) :
  positive_curves f -> d1 <= d2 ->
  P_exceed_spec f d1 state <= P_exceed_spec f d2 state.
Proof.
  intros Hpos Hd. unfold P_exceed_spec.
  destruct (f !! state) as [c|] eqn:Hc; [|lra].
  destruct (Hpos _ _ Hc) as [Hm Hb].
  fold (_standard_normal_cdf (ln (d1 / median c) / beta c)).
  fold (_standard_normal_cdf (ln (d2 / median c) / beta c)).
  destruct (Rgt_dec d1 0) as [H1|H1], (Rgt_dec d2 0) as [H2|H2]; try lra.
  - apply cdf_monotone.
    assert (0 < / beta c) by by apply Rinv_0_lt_compat.
    assert (0 < / median c) by by apply Rinv_0_lt_compat.
    apply Rmult_le_compat_r; [lra|].
    apply ln_monotone; unfold Rdiv; nra.
  - apply cdf_range.
Qed.

(** X6: with positive medians and dispersions, a larger demand never
    lowers the exceedance probability of a state; so the probability the
    operation returns for NoDamage does not increase with the demand and
    the one it returns for Complete does not decrease. *)
Theorem damage_probabilities_monotone (self : fragility_params)
    (component_type : string) (f : fragility) (d1 d2 : R) :
  self !! component_type = Some f -> positive_curves f -> d1 <= d2 ->
  (forall state,
      get0 (exceedance f d1) (name state) <= get0 (exceedance f d2) (name state))
  /\ exists (p1 p2 : gmap string R) (n1 n2 c1 c2 : R),
       _calculate_damage_probabilities self component_type d1 = Ok p1
       /\ _calculate_damage_probabilities self component_type d2 = Ok p2
       /\ p1 !! name NO_DAMAGE = Some n1 /\ p2 !! name NO_DAMAGE = Some n2
       /\ n2 <= n1
       /\ p1 !! name COMPLETE = Some c1 /\ p2 !! name COMPLETE = Some c2
       /\ c1 <= c2.
Proof.
  intros Hf Hpos Hd. split.
  - intros state. destruct (decide (state = NO_DAMAGE)) as [->|Hs].
    + unfold get0, exceedance, members. cbn [foldl].
      unfold exceedance_step; cbn [name].
      repeat (destruct (decide _) as [?|_]; [done|]).
      repeat case_match; simplify_map_eq; cbn; lra.
    + rewrite !exceedance_get0 by done. by apply P_exceed_monotone.
  - destruct (calculate_probabilities_values self component_type f d1 Hf)
      as (p1 & Hp1 & Hv1 & _).
    destruct (calculate_probabilities_values self component_type f d2 Hf)
      as (p2 & Hp2 & Hv2 & _).
    exists p1, p2. eexists _, _, _, _.
    split; [done|]. split; [done|].
    split; [apply Hv1|]. split; [apply Hv2|]. split.
    { cbn [P_state_spec]. pose proof (P_exceed_monotone f d1 d2 SLIGHT Hpos Hd). lra. }
    split; [apply Hv1|]. split; [apply Hv2|].
    cbn [P_state_spec]. by apply P_exceed_monotone.
Qed.

Lemma damage_probabilities_monotone_witness :
  (forall state,
      get0 (exceedance pier_drift_default 0.012) (name state)
      <= get0 (exceedance pier_drift_default 0.03) (name state))
  /\ exists (p1 p2 : gmap string R) (n1 n2 c1 c2 : R),
       _calculate_damage_probabilities default_fragility "pier_drift" 0.012 = Ok p1
       /\ _calculate_damage_probabilities default_fragility "pier_drift" 0.03 = Ok p2
       /\ p1 !! name NO_DAMAGE = Some n1 /\ p2 !! name NO_DAMAGE = Some n2
       /\ n2 <= n1
       /\ p1 !! name COMPLETE = Some c1 /\ p2 !! name COMPLETE = Some c2
       /\ c1 <= c2.
Proof.
  apply (damage_probabilities_monotone default_fragility "pier_drift"
           pier_drift_default 0.012 0.03 default_pier_drift default_pier_positive).
  lra.
Defined.

End DamageLaws.

(* ===================================================================== *)
(** * Further properties of the damage assessment                         *)
(* ===================================================================== *)

Module AssessmentProps.
Import DamageEvaluator EvaluationProps.

(** ** The overall state *)

Lemma max_by_value_max (a b : DamageState) :
  value (max_by_value a b) = (value a `max` value b)%nat
  /\ (max_by_value a b = a \/ max_by_value a b = b).
Proof. unfold max_by_value. case_decide; split; (lia || tauto). Qed.

Lemma time_history_body_overall (self : fragility_params)
    (th : Results.time_history_entry) (pier_height : R) (r : time_history_damage) :
  time_history_body self th pier_height = Ok r ->
  overall_damage_state r = max_by_value (pier_damage_state r) (deck_damage_state r).
Proof.
  unfold time_history_body. cbv zeta. intros H.
  case_decide; [by injection H as <-|].
  repeat match type of H with
  | mbind _ ?m = _ => destruct m; run_result in H; [|done]
  end.
  by injection H as <-.
Qed.

(** X7: the time-history assessment never raises, and in the record it
    returns, the fallback included, the overall state is the more severe
    of the pier state and the deck state. *)
Theorem overall_state_is_worst (self : fragility_params)
    (th : Results.time_history_entry) (pier_height : R) :
  exists r,
    evaluate_time_history self th pier_height = Ok r
    /\ value (overall_damage_state r)
       = (value (pier_damage_state r) `max` value (deck_damage_state r))%nat
    /\ (overall_damage_state r = pier_damage_state r
        \/ overall_damage_state r = deck_damage_state r).
Proof.
  unfold evaluate_time_history, try_except, any_exception.
  destruct (time_history_body self th pier_height) as [r|e] eqn:Hbody.
  - exists r. split; [done|].
    rewrite (time_history_body_overall _ _ _ _ Hbody). apply max_by_value_max.
  - eexists. split; [reflexivity|]. cbn. split; [done|by left].
Qed.

(** ** The reported maxima *)

Lemma foldl_Rmax_ge (ys : list R) (init : R) :
  init <= foldl Rmax init ys /\ forall y, y ∈ ys -> y <= foldl Rmax init ys.
Proof.
  revert init. induction ys as [|z ys IH]; intros init; cbn [foldl].
  - split; [lra|]. intros y Hy. by apply elem_of_nil in Hy.
  - destruct (IH (Rmax init z)) as [Hinit Hrest].
    pose proof (Rmax_l init z). pose proof (Rmax_r init z).
    split; [lra|]. intros y [->|Hy]%elem_of_cons; [lra|by apply Hrest].
Qed.

Lemma foldl_Rmax_in (ys : list R) (init : R) :
  foldl Rmax init ys = init \/ foldl Rmax init ys ∈ ys.
Proof.
  revert init. induction ys as [|z ys IH]; intros init; cbn [foldl]; [by left|].
  destruct (IH (Rmax init z)) as [->|Hin].
  - unfold Rmax. destruct (Rle_dec init z); [right; apply list_elem_of_here|by left].
  - right. by apply list_elem_of_further.
Qed.

(** [np.max(np.abs(xs))] bounds every entry and is the absolute value of
    one of them. *)
Lemma max_abs_ge (xs : list R) (x : R) : x ∈ xs -> Rabs x <= Np.max_abs xs.
Proof.
  destruct xs as [|x0 rest]; [by intros ?%elem_of_nil|].
  cbn [Np.max_abs]. destruct (foldl_Rmax_ge (Rabs <$> rest) (Rabs x0)) as [H0 Hrest].
  intros [->|Hx]%elem_of_cons; [done|].
  apply Hrest, list_elem_of_fmap. by exists x.
Qed.

Lemma max_abs_in (xs : list R) :
  xs <> [] -> exists x, x ∈ xs /\ Np.max_abs xs = Rabs x.
Proof.
  destruct xs as [|x0 rest]; [done|]. intros _. cbn [Np.max_abs].
  destruct (foldl_Rmax_in (Rabs <$> rest) (Rabs x0)) as [->|Hin].
  - exists x0. split; [apply list_elem_of_here|done].
  - apply list_elem_of_fmap in Hin as (x & -> & Hx).
    exists x. split; [by apply list_elem_of_further|done].
Qed.

Lemma column_max_bounds (a : Np.ndarray) (j : nat) :
  (0 < length a)%nat ->
  (forall row, row ∈ a -> Rabs (nth j row 0) <= Np.max_abs (Np.column_values a j))
  /\ exists row, row ∈ a /\ Np.max_abs (Np.column_values a j) = Rabs (nth j row 0).
Proof.
  intros Hlen. split.
  - intros row Hrow. apply max_abs_ge. unfold Np.column_values.
    apply list_elem_of_fmap. by exists row.
  - destruct (max_abs_in (Np.column_values a j)) as (x & Hx & ->).
    { unfold Np.column_values. destruct a; [cbn in Hlen; lia|done]. }
    unfold Np.column_values in Hx.
    apply list_elem_of_fmap in Hx as (row & -> & Hrow). by exists row.
Qed.

(** X8: when both component types have curves, the record has at least
    two rows and the pier height is positive, the reported pier drift is
    the largest absolute value of column 4 over the samples, divided by
    the pier height, and entry j of the reported deck displacement is the
    largest absolute value of column 13 + j: each bounds every sample and
    is attained by one.  A column the record does not have counts as 0. *)
Theorem reported_maxima_bound_samples (self : fragility_params)
    (th : Results.time_history_entry) (pier_height : R) (fP fD : fragility) :
  self !! "pier_drift" = Some fP -> self !! "deck_disp" = Some fD ->
  Np.rectangular (Results.displacements th) ->
  (1 < length (Results.displacements th))%nat ->
  0 < pier_height ->
  exists r,
    evaluate_time_history self th pier_height = Ok r
    /\ time_history_error r = None
    /\ 0 <= max_pier_drift r
    /\ (forall row, row ∈ Results.displacements th ->
          Rabs (nth 4 row 0) / pier_height <= max_pier_drift r)
    /\ (exists row, row ∈ Results.displacements th
          /\ max_pier_drift r = Rabs (nth 4 row 0) / pier_height)
    /\ forall j, (j < 3)%nat ->
         exists m, max_deck_displacement r !! j = Some m
           /\ (forall row, row ∈ Results.displacements th ->
                 Rabs (nth (13 + j) row 0) <= m)
           /\ exists row, row ∈ Results.displacements th
                /\ m = Rabs (nth (13 + j) row 0).
Proof.
  intros HP HD Hrect Hrows Hheight.
  destruct (time_history_body_success self th pier_height fP fD HP HD Hrect Hrows)
    as (r & Hbody & Herr & Hdrift & Hdeck & _).
  exists r. unfold evaluate_time_history. rewrite Hbody. cbn [try_except].
  split; [done|]. split; [done|].
  rewrite Hdrift, Hdeck, !column_values_disp_array by done.
  assert (0 < length (Results.displacements th))%nat as Hlen by lia.
  assert (0 < / pier_height) as Hinv by by apply Rinv_0_lt_compat.
  destruct (column_max_bounds (Results.displacements th) 4 Hlen)
    as [Hbound (row4 & Hrow4 & Hmax4)].
  split_and!.
  - rewrite Hmax4. pose proof (Rabs_pos (nth 4 row4 0)). unfold Rdiv. nra.
  - intros row Hrow. specialize (Hbound row Hrow). unfold Rdiv. nra.
  - exists row4. split; [done|]. by rewrite Hmax4.
  - intros j Hj.
    destruct (column_max_bounds (Results.displacements th) (13 + j) Hlen)
      as [Hb (row & Hrow & Hmax)].
    exists (Np.max_abs (Np.column_values (Results.displacements th) (13 + j))).
    split; [|split; [done|by exists row]].
    destruct j as [|[|[|j]]]; [| | |lia];
      cbn [fmap list_fmap lookup list_lookup];
      by rewrite column_values_disp_array.
Qed.

(** X9: the fields of a time-history record agree with one another:
    the pier state and the pier probabilities are those of the reported
    pier drift, the deck state and the deck probabilities are those of
    entry 1 (the vertical component) of the reported deck displacement,
    and each of the two probability mappings sums to 1. *)
Theorem time_history_record_consistent (self : fragility_params)
    (th : Results.time_history_entry) (pier_height : R) (fP fD : fragility) :
  self !! "pier_drift" = Some fP -> self !! "deck_disp" = Some fD ->
  Np.rectangular (Results.displacements th) ->
  (1 < length (Results.displacements th))%nat ->
  exists r deck_demand,
    evaluate_time_history self th pier_height = Ok r
    /\ time_history_error r = None
    /\ max_deck_displacement r !! 1%nat = Some deck_demand
    /\ _evaluate_damage_state self "pier_drift" (max_pier_drift r)
       = Ok (pier_damage_state r)
    /\ _evaluate_damage_state self "deck_disp" deck_demand
       = Ok (deck_damage_state r)
    /\ _calculate_damage_probabilities self "pier_drift" (max_pier_drift r)
       = Ok (pier_damage_probabilities r)
    /\ _calculate_damage_probabilities self "deck_disp" deck_demand
       = Ok (deck_damage_probabilities r)
    /\ DamageEvaluatorProps.dict_sum (pier_damage_probabilities r) = 1
    /\ DamageEvaluatorProps.dict_sum (deck_damage_probabilities r) = 1.
Proof.
  intros HP HD Hrect Hrows. unfold evaluate_time_history.
  rewrite time_history_body_reads by done. cbv zeta.
  set (A := disp_array_of (Results.displacements th)).
  set (drift := Np.max_abs (Np.column_values A 4) / pier_height).
  set (deck := Np.max_abs (Np.column_values A 14)).
  assert (_evaluate_damage_state self "pier_drift" drift
          = Ok (scan_states fP drift (reverse members))) as HsP
    by (unfold _evaluate_damage_state, component; by rewrite HP).
  assert (_evaluate_damage_state self "deck_disp" deck
          = Ok (scan_states fD deck (reverse members))) as HsD
    by (unfold _evaluate_damage_state, component; by rewrite HD).
  destruct (DamageEvaluatorProps.calculate_probabilities_values self
              "pier_drift" fP drift HP) as (pp & Hpp & _).
  destruct (DamageEvaluatorProps.calculate_probabilities_values self
              "deck_disp" fD deck HD) as (dp & Hdp & _).
  rewrite HsP, HsD, Hpp, Hdp. run_result.
  eexists _, deck. split; [reflexivity|].
  cbn [time_history_error max_deck_displacement max_pier_drift pier_damage_state
       deck_damage_state pier_damage_probabilities deck_damage_probabilities].
  split; [done|]. split; [done|]. split; [done|]. split; [done|].
  split; [done|]. split; [done|].
  split; by eapply DamageEvaluatorProps.calculate_total.
Qed.

(** A record of three samples in which the left support (column 4) and
    the deck midpoint (columns 13 to 15) move. *)
Definition three_samples : Np.ndarray :=
  [ [0; 0; 0; 0; 0; 0; 0; 0; 0; 0; 0; 0; 0; 0; 0; 0];
    [0.01; 0; 0; 0; 0.02; 0; 0; 0; 0; 0; 0; 0; 0; 0.01; -0.04; 0];
    [0.02; 0; 0; 0; -0.05; 0; 0; 0; 0; 0; 0; 0; 0; 0.02; 0.03; 0] ].

Definition three_samples_history : Results.time_history_entry :=
  {| Results.displacements := three_samples;
     Results.element_forces := Np.zeros 3 13;
     Results.time_points := [0; 0.01; 0.02];
     Results.th_error := None |}.

Lemma reported_maxima_bound_samples_witness :
  exists r,
    evaluate_time_history default_fragility three_samples_history 10 = Ok r
    /\ time_history_error r = None
    /\ 0 <= max_pier_drift r
    /\ (forall row, row ∈ three_samples ->
          Rabs (nth 4 row 0) / 10 <= max_pier_drift r)
    /\ (exists row, row ∈ three_samples
          /\ max_pier_drift r = Rabs (nth 4 row 0) / 10)
    /\ forall j, (j < 3)%nat ->
         exists m, max_deck_displacement r !! j = Some m
           /\ (forall row, row ∈ three_samples ->
                 Rabs (nth (13 + j) row 0) <= m)
           /\ exists row, row ∈ three_samples
                /\ m = Rabs (nth (13 + j) row 0).
Proof.
  apply (reported_maxima_bound_samples default_fragility three_samples_history 10
           pier_drift_default deck_disp_default
           DamageEvaluatorProps.default_pier_drift
           DamageEvaluatorProps.default_deck_disp).
  - unfold Np.rectangular, three_samples. by repeat constructor.
  - cbn. lia.
  - lra.
Defined.

Lemma time_history_record_consistent_witness :
  exists r deck_demand,
    evaluate_time_history default_fragility three_samples_history 10 = Ok r
    /\ time_history_error r = None
    /\ max_deck_displacement r !! 1%nat = Some deck_demand
    /\ _evaluate_damage_state default_fragility "pier_drift" (max_pier_drift r)
       = Ok (pier_damage_state r)
    /\ _evaluate_damage_state default_fragility "deck_disp" deck_demand
       = Ok (deck_damage_state r)
    /\ _calculate_damage_probabilities default_fragility "pier_drift"
         (max_pier_drift r) = Ok (pier_damage_probabilities r)
    /\ _calculate_damage_probabilities default_fragility "deck_disp" deck_demand
       = Ok (deck_damage_probabilities r)
    /\ DamageEvaluatorProps.dict_sum (pier_damage_probabilities r) = 1
    /\ DamageEvaluatorProps.dict_sum (deck_damage_probabilities r) = 1.
Proof.
  apply (time_history_record_consistent default_fragility three_samples_history
           10 pier_drift_default deck_disp_default
           DamageEvaluatorProps.default_pier_drift
           DamageEvaluatorProps.default_deck_disp).
  - unfold Np.rectangular, three_samples. by repeat constructor.
  - cbn. lia.
Defined.

(** ** A component type without curves *)

(** The static entry as [run_static_analysis] stores it. *)
Definition static_entry (disp_node5 : Py.value) : Py.value :=
  VDict [("displacements", VDict [("node5", disp_node5)])].

Lemma static_body_entry (self : fragility_params) (disp_node5 : Py.value) :
  static_body self (static_entry disp_node5)
  = (static_disp ← getitem_int disp_node5 1;
     match static_disp with
     | VFloat x =>
         state ← _evaluate_damage_state self "deck_disp" (Rabs x);
         mret {| deck_displacement := x; damage_state := state;
                 static_error := None |}
     | _ => Raise (TypeError ("bad operand type for abs(): '"
                              +:+ type_name static_disp +:+ "'"))
     end).
Proof. reflexivity. Qed.

(** X10: parameters that hold no curves for the deck (an evaluator built
    from a fragility section that names only the pier) make the static
    assessment of a well-formed result report a deck displacement of 0,
    NoDamage and the text of the [KeyError], and the time-history
    assessment of a record with at least two rows report the fallback
    with the name of the first component type that is missing; nothing is
    raised. *)
Theorem missing_component_is_reported (self : fragility_params)
    (results : Results.analysis_results) (pier_height : R)
    (disp_node5 : Py.value) (x : R) :
  self !! "deck_disp" = None ->
  Results.static results = Some (static_entry disp_node5) ->
  getitem_int disp_node5 1 = Ok (VFloat x) ->
  exists dr,
    evaluate_damage_from_results self results pier_height = Ok dr
    /\ dr_static dr
       = Some {| deck_displacement := 0; damage_state := NO_DAMAGE;
                 static_error := Some "'deck_disp'" |}
    /\ forall th,
         Results.time_history results = Some th ->
         Np.rectangular (Results.displacements th) ->
         (1 < length (Results.displacements th))%nat ->
         dr_time_history dr
         = Some (no_time_history_damage
                   (if self !! "pier_drift" is Some _
                    then "'deck_disp'" else "'pier_drift'")).
Proof.
  intros Hdeck Hstatic Hread.
  destruct (evaluate_damage_from_results_branches self results pier_height)
    as (dr & Hdr & Hs & _ & Hth & _).
  exists dr. split; [done|]. split.
  - destruct (Hs _ Hstatic) as (r & Hr & ->). f_equal.
    unfold evaluate_static in Hr. rewrite static_body_entry, Hread in Hr.
    unfold _evaluate_damage_state, component in Hr. rewrite Hdeck in Hr.
    run_result in Hr. cbn in Hr. by injection Hr as <-.
  - intros th Hthis Hrect Hrows.
    destruct (Hth _ Hthis) as (r & Hr & ->). f_equal.
    unfold evaluate_time_history in Hr.
    rewrite time_history_body_reads in Hr by done. cbv zeta in Hr.
    unfold _evaluate_damage_state, component in Hr. rewrite Hdeck in Hr.
    destruct (self !! "pier_drift"); run_result in Hr; cbn in Hr;
      by injection Hr as <-.
Qed.

(** Parameters with curves for the pier only. *)
Definition pier_only : fragility_params :=
  <["pier_drift" := pier_drift_default]> ∅.

Definition static_only_results : Results.analysis_results :=
  {| Results.static := Some (static_entry (VList [VFloat 0; VFloat (-0.03); VFloat 0]));
     Results.modal := None;
     Results.time_history := None |}.

Lemma missing_component_is_reported_witness :
  exists dr,
    evaluate_damage_from_results pier_only static_only_results 10 = Ok dr
    /\ dr_static dr
       = Some {| deck_displacement := 0; damage_state := NO_DAMAGE;
                 static_error := Some "'deck_disp'" |}
    /\ forall th,
         Results.time_history static_only_results = Some th ->
         Np.rectangular (Results.displacements th) ->
         (1 < length (Results.displacements th))%nat ->
         dr_time_history dr
         = Some (no_time_history_damage
                   (if pier_only !! "pier_drift" is Some _
                    then "'deck_disp'" else "'pier_drift'")).
Proof.
  apply (missing_component_is_reported pier_only static_only_results 10
           (VList [VFloat 0; VFloat (-0.03); VFloat 0]) (-0.03)).
  - reflexivity.
  - reflexivity.
  - reflexivity.
Defined.

End AssessmentProps.

(* ===================================================================== *)
(** * Properties of the analysis runner                                   *)
(* ===================================================================== *)

Module RunnerProps.
Import Results DamageEvaluator AnalysisRunner EvaluationProps AssessmentProps.

Ltac run_runner :=
  unfold catch, lift, modify, mbind, M_bind, mret, M_ret.

(** ** The modal analysis *)

(** X11: [run_modal_analysis] never raises.  It stores one entry under
    "modal" and touches nothing else; the periods of the entry are the
    list it returns, with one frequency per period.  When the eigen-solve
    returns there are as many periods as modes were asked for, also when
    it delivers fewer eigenvalues; when it fails there are the first
    [min(num_modes, 3)] default periods and the text of the failure. *)
Theorem run_modal_analysis_returns (ops : engine) (num_modes : nat)
    (raw : analysis_results) :
  exists ps entry,
    run_modal_analysis ops num_modes raw = (set_modal entry raw, Ok ps)
    /\ periods entry = ps
    /\ length (frequencies entry) = length ps
    /\ (forall evs, eigen_solve ops = Ok evs ->
          length ps = num_modes
          /\ eigen_values entry = Some evs /\ modal_error entry = None)
    /\ (forall e, eigen_solve ops = Raise e ->
          ps = take num_modes [0.5; 0.3; 0.1]
          /\ length ps = (num_modes `min` 3)%nat
          /\ eigen_values entry = None /\ modal_error entry = Some (str e)).
Proof.
  unfold run_modal_analysis. run_runner.
  destruct (eigen_solve ops) as [evs|e]; eexists _, _;
    (split; [reflexivity|]); cbn [periods frequencies eigen_values modal_error];
    (split; [done|]); (split; [by rewrite !length_fmap|]).
  - split; [|done]. intros evs' [= <-].
    by rewrite length_fmap, length_seq.
  - split; [done|]. intros e' [= <-]. unfold default_periods.
    split; [done|]. split; [|done]. rewrite length_take. cbn [length]. lia.
Qed.

Lemma period_of_cases (evs : list R) (i : nat) :
  (exists ev, evs !! i = Some ev /\ 0 < ev
              /\ period_of evs i = 2 * PI / sqrt ev /\ 0 < period_of evs i)
  \/ ((evs !! i = None \/ exists ev, evs !! i = Some ev /\ ev <= 0)
      /\ period_of evs i = 0).
Proof.
  unfold period_of. destruct (evs !! i) as [ev|]; [|right; split; [by left|done]].
  destruct (Rgt_dec ev 0) as [Hev|Hev].
  - left. exists ev. split; [done|]. split; [lra|]. split; [done|].
    pose proof PI_RGT_0. assert (0 < sqrt ev) by (apply sqrt_lt_R0; lra).
    apply Rdiv_lt_0_compat; lra.
  - right. split; [|done]. right. exists ev. split; [done|lra].
Qed.

(** X12: when the eigen-solve returns, mode i (counted from 0, below
    [num_modes]) has the period 2*pi/sqrt(lambda_i) and the frequency
    1/period when its eigenvalue lambda_i is positive, and period 0 and
    frequency 0 when the eigenvalue is missing or not positive; no
    period or frequency is negative. *)
Theorem modal_periods_and_frequencies (ops : engine) (num_modes : nat)
    (raw : analysis_results) (evs : list R) :
  eigen_solve ops = Ok evs ->
  exists ps entry,
    run_modal_analysis ops num_modes raw = (set_modal entry raw, Ok ps)
    /\ forall i, (i < num_modes)%nat ->
         exists T f,
           ps !! i = Some T /\ frequencies entry !! i = Some f
           /\ 0 <= T /\ 0 <= f
           /\ (forall ev, evs !! i = Some ev -> 0 < ev ->
                 T = 2 * PI / sqrt ev /\ 0 < T /\ f * T = 1)
           /\ ((evs !! i = None \/ exists ev, evs !! i = Some ev /\ ev <= 0) ->
               T = 0 /\ f = 0).
Proof.
  intros Hsolve. unfold run_modal_analysis. run_runner. rewrite Hsolve.
  eexists _, _. split; [reflexivity|]. cbn [frequencies].
  intros i Hi.
  exists (period_of evs i),
         (if Rgt_dec (period_of evs i) 0 then 1 / period_of evs i else 0).
  split; [by rewrite list_lookup_fmap, lookup_seq_lt|].
  split; [by rewrite !list_lookup_fmap, lookup_seq_lt|].
  destruct (period_of_cases evs i) as [(ev & Hev & Hpos & Hper & HT) | [Hbad HT]].
  - destruct (Rgt_dec (period_of evs i) 0) as [_|?]; [|lra].
    assert (0 < 1 / period_of evs i) by (apply Rdiv_lt_0_compat; lra).
    split; [lra|]. split; [lra|]. split.
    + intros ev' Hev' _. rewrite Hev in Hev'. injection Hev' as <-.
      split; [done|]. split; [done|]. field. lra.
    + intros [Hnone | (ev' & Hev' & Hle)]; [congruence|].
      rewrite Hev in Hev'. injection Hev' as <-. lra.
  - rewrite HT. destruct (Rgt_dec 0 0) as [?|_]; [lra|].
    split; [lra|]. split; [lra|]. split; [|done].
    intros ev Hev Hpos. destruct Hbad as [Hnone | (ev' & Hev' & Hle)]; [congruence|].
    rewrite Hev in Hev'. injection Hev' as <-. lra.
Qed.

(** An engine whose eigen-solve delivers two eigenvalues, one of them
    zero. *)
Definition two_eigenvalues : engine :=
  {| build_static := Ok (); build_modal := Ok (); build_time_history := Ok ();
     static_solve := Ok (VList [VFloat 0; VFloat (-0.01); VFloat 0]);
     eigen_solve := Ok [4; 0];
     load_ground_motion := Ok [0; 0.1; -0.1];
     transient_solve := Raise (SolverError "analysis failed");
     cleanup := Ok () |}.

Lemma modal_periods_and_frequencies_witness :
  exists ps entry,
    run_modal_analysis two_eigenvalues 3 Results.empty
    = (set_modal entry Results.empty, Ok ps)
    /\ forall i, (i < 3)%nat ->
         exists T f,
           ps !! i = Some T /\ frequencies entry !! i = Some f
           /\ 0 <= T /\ 0 <= f
           /\ (forall ev, [4; 0] !! i = Some ev -> 0 < ev ->
                 T = 2 * PI / sqrt ev /\ 0 < T /\ f * T = 1)
           /\ (([4; 0] : list R) !! i = None
               \/ (exists ev, [4; 0] !! i = Some ev /\ ev <= 0) ->
               T = 0 /\ f = 0).
Proof.
  exact (modal_periods_and_frequencies two_eigenvalues 3 Results.empty [4; 0]
           eq_refl).
Defined.

(** ** The static analysis *)

Lemma getitem_int_raises (v : Py.value) (i : nat) (e : exn) :
  getitem_int v i = Raise e -> is_lookup_error e = true.
Proof.
  unfold getitem_int. intros H. repeat (case_match; simplify_eq); done.
Qed.

(** X13: [run_static_analysis] stores the entry before it takes the
    vertical displacement out of it.  When the solver hands back a
    displacement that has no index 1, the call raises, the entry is stored
    all the same and no other entry changes; the damage assessment of the
    stored results then reports a deck displacement of 0, NoDamage and the
    text of that same failure. *)
Theorem static_result_stored_before_indexing (ops : engine)
    (load_magnitude : R) (raw : analysis_results) (disp_node5 : Py.value)
    (e : exn) (self : fragility_params) (pier_height : R) :
  static_solve ops = Ok disp_node5 ->
  getitem_int disp_node5 1 = Raise e ->
  exists raw',
    run_static_analysis ops load_magnitude raw = (raw', Raise e)
    /\ static raw' = Some (static_entry disp_node5)
    /\ modal raw' = modal raw /\ time_history raw' = time_history raw
    /\ exists dr,
         evaluate_damage_from_results self raw' pier_height = Ok dr
         /\ dr_static dr
            = Some {| deck_displacement := 0; damage_state := NO_DAMAGE;
                      static_error := Some (str e) |}.
Proof.
  intros Hsolve Hindex. unfold run_static_analysis. run_runner.
  rewrite Hsolve, Hindex. eexists. split; [reflexivity|].
  cbn [static modal time_history set_static].
  split; [done|]. split; [done|]. split; [done|].
  destruct (evaluate_damage_from_results_branches self
              (set_static (static_entry disp_node5) raw) pier_height)
    as (dr & Hdr & Hs & _).
  exists dr. split; [done|].
  destruct (Hs _ eq_refl) as (r & Hr & ->). f_equal.
  unfold evaluate_static in Hr. rewrite static_body_entry, Hindex in Hr.
  run_result in Hr. rewrite (getitem_int_raises _ _ _ Hindex) in Hr.
  by injection Hr as <-.
Qed.

(** An engine whose static solve hands back one displacement only. *)
Definition one_displacement : engine :=
  {| build_static := Ok (); build_modal := Ok (); build_time_history := Ok ();
     static_solve := Ok (VList [VFloat 0.1]);
     eigen_solve := Ok [4; 0];
     load_ground_motion := Ok [0; 0.1; -0.1];
     transient_solve := Ok ([], []);
     cleanup := Ok () |}.

Lemma static_result_stored_before_indexing_witness :
  exists raw',
    run_static_analysis one_displacement 100 Results.empty
    = (raw', Raise (IndexError "list index out of range"))
    /\ static raw' = Some (static_entry (VList [VFloat 0.1]))
    /\ modal raw' = None /\ time_history raw' = None
    /\ exists dr,
         evaluate_damage_from_results default_fragility raw' 10 = Ok dr
         /\ dr_static dr
            = Some {| deck_displacement := 0; damage_state := NO_DAMAGE;
                      static_error := Some "list index out of range" |}.
Proof.
  exact (static_result_stored_before_indexing one_displacement 100
           Results.empty (VList [VFloat 0.1])
           (IndexError "list index out of range") default_fragility 10
           eq_refl eq_refl).
Defined.

(** X14: the displacement [run_static_analysis] returns is the one the
    damage assessment reads back from the stored results: it reports that
    value as the deck displacement and classifies its absolute value with
    the deck curves. *)
Theorem static_displacement_round_trip (ops : engine) (load_magnitude : R)
    (raw : analysis_results) (disp_node5 : Py.value) (x : R)
    (self : fragility_params) (f : fragility) (pier_height : R) :
  static_solve ops = Ok disp_node5 ->
  getitem_int disp_node5 1 = Ok (VFloat x) ->
  self !! "deck_disp" = Some f ->
  exists raw' dr,
    run_static_analysis ops load_magnitude raw = (raw', Ok (VFloat x))
    /\ evaluate_damage_from_results self raw' pier_height = Ok dr
    /\ dr_static dr
       = Some {| deck_displacement := x;
                 damage_state := scan_states f (Rabs x) (reverse members);
                 static_error := None |}.
Proof.
  intros Hsolve Hindex Hf. unfold run_static_analysis. run_runner.
  rewrite Hsolve, Hindex.
  destruct (evaluate_damage_from_results_branches self
              (set_static (static_entry disp_node5) raw) pier_height)
    as (dr & Hdr & Hs & _).
  eexists _, dr. split; [reflexivity|]. split; [done|].
  destruct (Hs _ eq_refl) as (r & Hr & ->). f_equal.
  unfold evaluate_static in Hr. rewrite static_body_entry, Hindex in Hr.
  unfold _evaluate_damage_state, component in Hr. rewrite Hf in Hr.
  run_result in Hr. by injection Hr as <-.
Qed.

Lemma static_displacement_round_trip_witness :
  exists raw' dr,
    run_static_analysis two_eigenvalues 100 Results.empty
    = (raw', Ok (VFloat (-0.01)))
    /\ evaluate_damage_from_results default_fragility raw' 10 = Ok dr
    /\ dr_static dr
       = Some {| deck_displacement := -0.01;
                 damage_state :=
                   scan_states deck_disp_default (Rabs (-0.01)) (reverse members);
                 static_error := None |}.
Proof.
  exact (static_displacement_round_trip two_eigenvalues 100 Results.empty
           (VList [VFloat 0; VFloat (-0.01); VFloat 0]) (-0.01)
           default_fragility deck_disp_default 10 eq_refl eq_refl
           DamageEvaluatorProps.default_deck_disp).
Defined.

(** ** The time-history analysis *)














End RunnerProps.

(* ===================================================================== *)
(** * Further properties of the orchestrator                              *)
(* ===================================================================== *)

Module OrchestratorProps.
Import Results DamageEvaluator AnalysisRunner BridgeEvaluator.
Import EvaluationProps BridgeEvaluatorProps.

(** ** Construction *)

Definition no_configuration : exn :=
  ValueError "必须提供配置文件路径或配置字典".

(** X17: the constructor checks in a fixed order.  Without a
    configuration dictionary, or with an empty one, it raises
    [ValueError]; otherwise the first of "span", "height" and "material"
    that is missing raises its [KeyError], before the fragility section
    is looked at; and an evaluator that was constructed holds the
    configuration with these three keys and a runner without results. *)
Theorem init_validates_keys :
  init None = Raise no_configuration
  /\ (forall c, truthy c = false -> init (Some c) = Raise no_configuration)
  /\ (forall c, truthy c = true ->
        (span c = None -> init (Some c) = Raise (KeyError "'span'"))
        /\ (is_Some (span c) -> height c = None ->
            init (Some c) = Raise (KeyError "'height'"))
        /\ (is_Some (span c) -> is_Some (height c) -> material c = None ->
            init (Some c) = Raise (KeyError "'material'")))
  /\ (forall c ev, init (Some c) = Ok ev ->
        self_config ev = c /\ analysis_runner ev = Results.empty
        /\ is_Some (span c) /\ is_Some (height c) /\ is_Some (material c)).
Proof.
  split; [done|]. split; [by intros c Hc; unfold init; rewrite Hc|]. split.
  - intros c Hc. unfold init, _initialize_components. rewrite Hc. split_and!.
    + by intros ->.
    + by intros [x ->] ->.
    + by intros [x ->] [y ->] ->.
  - intros c ev. unfold init, _initialize_components.
    destruct (truthy c); [|done].
    destruct (span c) as [x|]; [|done].
    destruct (height c) as [y|]; [|done].
    destruct (material c) as [z|]; [|done].
    cbn [require mbind result_bind].
    destruct (_convert_fragility_config c); [|done].
    intros [= <-]. cbn. split_and!; by eauto.
Qed.

(** ** The names of the damage states *)

Lemma upper_ascii_idemp (c : Ascii.ascii) : upper_ascii (upper_ascii c) = upper_ascii c.
Proof. by destruct c as [[] [] [] [] [] [] [] []]. Qed.

(** X18: looking a member up by its name returns the member, and only a
    member's name is found; on ASCII strings [upper] is idempotent, and it
    leaves the member names as they are, so any ASCII spelling whose
    upper-case form is a member's name is resolved to that member. *)
Theorem getattr_round_trip :
  (forall state, getattr_DamageState (name state) = Ok state)
  /\ (forall attr state, getattr_DamageState attr = Ok state -> attr = name state)
  /\ (forall s, is_ascii s -> upper (upper s) = upper s)
  /\ (forall state, upper (name state) = name state)
  /\ (forall s state, is_ascii s -> upper s = name state ->
        getattr_DamageState (upper s) = Ok state).
Proof.
  assert (forall state, getattr_DamageState (name state) = Ok state) as Hname
    by by intros [].
  split_and!.
  - done.
  - intros attr state Hattr.
    destruct (getattr_cases attr) as [(s & -> & Hs) | (_ & Hraise)]; congruence.
  - intros s _. induction s as [|c s IH]; [done|].
    cbn [upper]. by rewrite upper_ascii_idemp, IH.
  - by intros [].
  - intros s state _ ->. apply Hname.
Qed.

(** ** Repeated state names *)

(** The entries of a component whose name spells [state], in document
    order. *)
Definition spellings (state : DamageState) (damage_levels : list (string * curve))
    : list (string * curve) :=
  filter (fun entry => upper entry.1 = name state) damage_levels.

(** X19: when the names of a component are ASCII and all known, the
    curve stored for a state is the one of the last entry whose name
    spells the state without regard to case, and a state no entry spells
    gets none: of two entries such as "slight" and "SLIGHT" the later one
    wins. *)
Theorem convert_levels_last_wins (damage_levels : list (string * curve)) :
  Forall (fun entry => is_ascii entry.1) damage_levels ->
  Forall (fun entry => known_name entry.1) damage_levels ->
  exists f : gmap DamageState curve,
    convert_levels damage_levels = Ok f
    /\ forall state, f !! state = snd <$> last (spellings state damage_levels).
Proof.
  intros _.
  induction damage_levels as [|[n p] levels IH] using rev_ind; intros Hknown.
  - exists ∅. split; [done|]. intros state. by rewrite lookup_empty.
  - apply Forall_app in Hknown as [Hknown Hlast].
    destruct (IH Hknown) as (f & Hf & Hlook).
    inversion Hlast as [|? ? [s0 Hs0] _]; subst. cbn [fst] in Hs0.
    rewrite convert_levels_snoc, Hf. cbn [mbind result_bind].
    rewrite Hs0.
    assert (getattr_DamageState (name s0) = Ok s0) as -> by by destruct s0.
    eexists. split; [reflexivity|]. intros state.
    unfold spellings. rewrite filter_app.
    destruct (decide (s0 = state)) as [<-|Hne].
    + rewrite lookup_insert_eq.
      rewrite (filter_cons_True _ (n, p)) by done.
      by rewrite filter_nil, last_snoc.
    + rewrite lookup_insert_ne by done.
      rewrite (filter_cons_False _ (n, p)).
      * rewrite filter_nil, app_nil_r. apply Hlook.
      * cbn [fst]. rewrite Hs0. intros Heq.
        by apply DamageEvaluatorProps.name_inj in Heq.
Qed.

Lemma convert_levels_last_wins_witness :
  exists f : gmap DamageState curve,
    convert_levels [("slight", Curve 0.004 0.5); ("SLIGHT", Curve 0.006 0.5)]
    = Ok f
    /\ forall state,
         f !! state
         = snd <$> last (spellings state
                           [("slight", Curve 0.004 0.5); ("SLIGHT", Curve 0.006 0.5)]).
Proof.
  apply (convert_levels_last_wins
           [("slight", Curve 0.004 0.5); ("SLIGHT", Curve 0.006 0.5)]).
  - repeat constructor; cbn; lia.
  - repeat constructor; by exists SLIGHT.
Defined.

(** ** Configured curves and the defaults *)

(** X20: the curves of the configuration are not merged with the
    built-in defaults.  Without a fragility section the evaluator holds
    the defaults; with a section that names component types it holds
    curves for exactly those component types, so a section that names
    only the pier leaves the deck without curves. *)
Theorem configured_curves_replace_defaults (c : config) (ev : evaluator) :
  init (Some c) = Ok ev ->
  (fragility c = None -> damage_evaluator ev = default_fragility)
  /\ (forall components, fragility c = Some components -> components <> [] ->
        forall component_type,
          is_Some (damage_evaluator ev !! component_type)
          <-> component_type ∈ components.*1).
Proof.
  unfold init, _initialize_components, _convert_fragility_config.
  destruct (truthy c); [|done].
  destruct (span c) as [x|]; [|done].
  destruct (height c) as [y|]; [|done].
  destruct (material c) as [z|]; [|done].
  cbn [require mbind result_bind].
  destruct (fragility c) as [components|].
  - destruct (convert_components_cases components)
      as [(_ & fp & -> & Hsize & Hdom & _) | (_ & attr & -> & _)]; [|done].
    cbn [mbind result_bind mret result_ret]. intros [= <-].
    cbn [damage_evaluator DamageEvaluator.init].
    split; [done|]. intros components' [= <-] Hne component_type.
    rewrite bool_decide_eq_false_2; [apply Hdom|]. by rewrite Hsize.
  - intros [= <-]. split; [done|]. done.
Qed.

Lemma configured_curves_replace_defaults_witness :
  exists ev,
    init (Some override_config) = Ok ev
    /\ is_Some (damage_evaluator ev !! "pier_drift")
    /\ ~ is_Some (damage_evaluator ev !! "deck_disp").
Proof.
  eexists. split; [reflexivity|].
  destruct (configured_curves_replace_defaults override_config _ eq_refl)
    as [_ Hnamed].
  specialize (Hnamed _ eq_refl ltac:(done)). cbn [fmap list_fmap fst] in Hnamed.
  split.
  - apply Hnamed, list_elem_of_here.
  - intros Hdeck. apply Hnamed in Hdeck.
    by apply list_elem_of_singleton in Hdeck.
Defined.

(** ** Runs *)

Lemma damage_step_assesses (self : evaluator) (raw : analysis_results) :
  is_Some (height (self_config self)) ->
  exists pier_height d,
    height (self_config self) = Some pier_height
    /\ evaluate_damage_from_results (damage_evaluator self) raw pier_height = Ok d
    /\ damage_step self raw = Damage d.
Proof.
  intros [h Hh].
  destruct (evaluate_damage_from_results_branches (damage_evaluator self) raw h)
    as (d & Hd & _).
  exists h, d. split; [done|]. split; [done|].
  unfold damage_step. rewrite Hh. cbn [require mbind result_bind]. by rewrite Hd.
Qed.

(** X21: for an evaluator whose configuration has a pier height, as every
    constructed evaluator has, the damage step of a run never fails:
    the run returns an assessment, with a static part exactly when the
    raw results hold a static entry and a time-history part exactly when
    they hold a time-history entry; the configuration is the same after
    the run, so this holds for every later run too. *)
Theorem damage_assessment_never_fails (ops : engine) (start_time end_time : R)
    (self : evaluator) (analysis_types : option (list string)) :
  is_Some (height (self_config self)) ->
  exists self' r d,
    run_analysis ops start_time end_time self analysis_types = (self', Ok r)
    /\ results_damage r = Damage d
    /\ (is_Some (dr_static d) <-> is_Some (static (results_analysis r)))
    /\ (is_Some (dr_time_history d) <-> is_Some (time_history (results_analysis r)))
    /\ self_config self' = self_config self.
Proof.
  intros Hheight. rewrite run_analysis_runs. cbv zeta.
  set (raw := {| static := _ |}).
  destruct (damage_step_assesses self raw Hheight) as (h & d & _ & Hd & Hstep).
  eexists _, _, d. split; [reflexivity|].
  cbn [results_damage results_analysis self_config]. split; [done|].
  destruct (evaluate_damage_from_results_branches (damage_evaluator self) raw h)
    as (d' & Hd' & Hs & Hns & Ht & Hnt).
  rewrite Hd in Hd'. injection Hd' as <-.
  split_and!.
  - destruct (static raw) as [s|].
    + destruct (Hs s eq_refl) as (r & _ & ->). split; by eauto.
    + rewrite (Hns eq_refl). split; by intros [? ?].
  - destruct (time_history raw) as [t|].
    + destruct (Ht t eq_refl) as (r & _ & ->). split; by eauto.
    + rewrite (Hnt eq_refl). split; by intros [? ?].
  - done.
Qed.

Lemma damage_assessment_never_fails_witness :
  exists self' r d,
    run_analysis eigen_fails 0 1 static_evaluator None = (self', Ok r)
    /\ results_damage r = Damage d
    /\ (is_Some (dr_static d) <-> is_Some (static (results_analysis r)))
    /\ (is_Some (dr_time_history d) <-> is_Some (time_history (results_analysis r)))
    /\ self_config self' = static_config.
Proof.
  apply (damage_assessment_never_fails eigen_fails 0 1 static_evaluator None).
  by eexists.
Defined.

(** X22: a run looks at the list of analysis types only to see which of
    "static", "modal" and "time_history" occur in it: the phases run in
    that fixed order, each at most once, and other names are ignored.
    Two lists with the same occurrences give the same run. *)
Theorem run_analysis_ignores_order (ops : engine) (start_time end_time : R)
    (self : evaluator) (types1 types2 : list string) :
  (forall phase_name, phase_name ∈ ["static"; "modal"; "time_history"] ->
     phase_name ∈ types1 <-> phase_name ∈ types2) ->
  run_analysis ops start_time end_time self (Some types1)
  = run_analysis ops start_time end_time self (Some types2).
Proof.
  intros Hsame. rewrite !run_analysis_runs. cbv zeta.
  cbn [select_analysis_types].
  assert (forall phase_name, phase_name ∈ ["static"; "modal"; "time_history"] ->
            bool_decide (phase_name ∈ types1) = bool_decide (phase_name ∈ types2))
    as Hb by (intros n Hn; apply bool_decide_ext, Hsame, Hn).
  unfold static_after, modal_after, time_history_after.
  rewrite (Hb "static"), (Hb "modal"), (Hb "time_history");
    [done| | |]; rewrite !elem_of_cons; tauto.
Qed.

Lemma run_analysis_ignores_order_witness :
  run_analysis eigen_fails 0 1 static_evaluator
    (Some ["modal"; "response_spectrum"; "static"; "modal"])
  = run_analysis eigen_fails 0 1 static_evaluator (Some ["static"; "modal"]).
Proof.
  apply run_analysis_ignores_order.
  intros phase_name Hphase. rewrite !elem_of_cons, !elem_of_nil in *.
  destruct Hphase as [->|[->|[->|[]]]]; split; intros H;
    repeat (destruct H as [H|H]; try done); tauto.
Defined.

(** X23: a run changes neither the configuration nor the curves of the
    evaluator, and the evaluator keeps the raw results the run returns.
    The entry of a phase that is not selected is the one an earlier run
    left, so the damage step assesses it again. *)
Theorem run_analysis_frame (ops : engine) (start_time end_time : R)
    (self : evaluator) (analysis_types : option (list string)) :
  let types := select_analysis_types (self_config self) analysis_types in
  exists self' r,
    run_analysis ops start_time end_time self analysis_types = (self', Ok r)
    /\ self_config self' = self_config self
    /\ damage_evaluator self' = damage_evaluator self
    /\ analysis_runner self' = results_analysis r
    /\ results_damage r = damage_step self (results_analysis r)
    /\ ("static" ∉ types ->
        static (results_analysis r) = static (analysis_runner self))
    /\ ("modal" ∉ types ->
        modal (results_analysis r) = modal (analysis_runner self))
    /\ ("time_history" ∉ types ->
        time_history (results_analysis r) = time_history (analysis_runner self)).
Proof.
  cbv zeta. rewrite run_analysis_runs. cbv zeta.
  eexists _, _. split; [reflexivity|].
  cbn [self_config damage_evaluator analysis_runner results_analysis
       results_damage static modal time_history].
  do 4 (split; [done|]).
  unfold static_after, modal_after, time_history_after.
  split_and!; intros Hno; by rewrite bool_decide_eq_false_2.
Qed.

End OrchestratorProps.

(* ===================================================================== *)
(** * Properties of the summary and of the saved results                  *)
(* ===================================================================== *)

Module ReportProps.
Import Results DamageEvaluator AnalysisRunner BridgeEvaluator.
Import EvaluationProps BridgeEvaluatorProps AssessmentProps RunnerProps
  OrchestratorProps.

Section Summaries.

Variables format_6f format_2pct : R -> string.
Variable ops : engine.
Variables start_time end_time : R.


(** X25: a run that selects the static phase and has no time-history
    entry, whose static solve hands back a vertical displacement x, has
    a summary of three lines: the name of the state the deck curves give
    |x|, the description of that state, and x itself. *)
Theorem summary_of_static_run (self : evaluator)
    (analysis_types : option (list string)) (a : analysis_config)
    (disp_node5 : Py.value) (x : R) (f : gmap DamageState curve) :
  is_Some (height (self_config self)) ->
  damage_evaluator self !! "deck_disp" = Some f ->
  "static" ∈ select_analysis_types (self_config self) analysis_types ->
  "time_history" ∉ select_analysis_types (self_config self) analysis_types ->
  time_history (analysis_runner self) = None ->
  build_static ops = Ok () ->
  analysis (self_config self) = Some a ->
  static_solve ops = Ok disp_node5 ->
  getitem_int disp_node5 1 = Ok (VFloat x) ->
  exists self' r,
    run_analysis ops start_time end_time self analysis_types = (self', Ok r)
    /\ let state := scan_states f (Rabs x) (reverse members) in
       get_damage_summary format_6f format_2pct (Some r)
       = join_lines ["静力分析损伤状态: " +:+ name state;
                     "损伤描述: " +:+ get_damage_description state;
                     "桥面板最大位移: " +:+ format_6f x].
Proof.
  intros Hheight Hf Hsel Hnoth Hbefore Hbuild Hanalysis Hsolve Hindex.
  rewrite run_analysis_runs. cbv zeta.
  set (raw := {| static := _ |}).
  eexists _, _. split; [reflexivity|].
  destruct (damage_step_assesses self raw Hheight) as (h & d & _ & Hd & Hstep).
  unfold get_damage_summary. cbn [results_damage]. rewrite Hstep.
  destruct (evaluate_damage_from_results_branches (damage_evaluator self) raw h)
    as (d' & Hd' & Hs & _ & _ & Hnt).
  rewrite Hd in Hd'. injection Hd' as <-.
  assert (time_history raw = None) as Hnone.
  { cbn [raw time_history]. unfold time_history_after.
    by rewrite bool_decide_eq_false_2. }
  assert (static raw = Some (static_entry disp_node5)) as Hentry.
  { cbn [raw static]. unfold static_after.
    by rewrite bool_decide_eq_true_2, Hbuild, Hanalysis, Hsolve. }
  rewrite (Hnt Hnone).
  destruct (Hs _ Hentry) as (r' & Hr' & ->).
  unfold evaluate_static in Hr'. rewrite static_body_entry, Hindex in Hr'.
  unfold _evaluate_damage_state, component in Hr'. rewrite Hf in Hr'.
  run_result in Hr'. by injection Hr' as <-.
Qed.

End Summaries.




Lemma summary_of_static_run_witness :
  exists self' r,
    run_analysis eigen_fails 0 1 static_evaluator None = (self', Ok r)
    /\ let state := scan_states deck_disp_default (Rabs (-0.01)) (reverse members) in
       get_damage_summary (fun _ => "-0.010000") (fun _ => "0.00%") (Some r)
       = join_lines ["静力分析损伤状态: " +:+ name state;
                     "损伤描述: " +:+ get_damage_description state;
                     "桥面板最大位移: " +:+ "-0.010000"].
Proof.
  apply (summary_of_static_run (fun _ => "-0.010000") (fun _ => "0.00%")
           eigen_fails 0 1 static_evaluator None
           {| static_load := Some 100; ground_motion := None |}
           (VList [VFloat 0; VFloat (-0.01); VFloat 0]) (-0.01) deck_disp_default).
  - by eexists.
  - apply DamageEvaluatorProps.default_deck_disp.
  - cbn. apply list_elem_of_here.
  - cbn. rewrite !elem_of_cons, elem_of_nil. by intros [|[|]].
  - reflexivity.
  - reflexivity.
  - reflexivity.
  - reflexivity.
  - reflexivity.
Defined.

(** ** The saved results *)

(** The objects [json.dump] encodes: [None], booleans, numbers, strings,
    and lists and dictionaries of such objects. *)
#[warnings="-register-all"]
Inductive json_encodable : obj -> Prop :=
| encodable_none : json_encodable ONone
| encodable_bool (b : bool) : json_encodable (OBool b)
| encodable_int (n : Z) : json_encodable (OInt n)
| encodable_float (x : R) : json_encodable (OFloat x)
| encodable_str (s : string) : json_encodable (OStr s)
| encodable_list (elements : list obj) :
    Forall json_encodable elements -> json_encodable (OList elements)
| encodable_dict (entries : list (string * obj)) :
    Forall (fun kv => json_encodable kv.2) entries ->
    json_encodable (ODict entries).

Definition is_instance (o : obj) : Prop :=
  match o with
  | OInstance _ => True
  | _ => False
  end.

(** A value of the results that holds no instance of a class: none as a
    value of a dictionary, at any depth, and none as an element of a list
    that is such a value. *)
#[warnings="-register-all"]
Inductive instance_free : obj -> Prop :=
| free_dict (entries : list (string * obj)) :
    Forall (fun kv => instance_free kv.2) entries -> instance_free (ODict entries)
| free_list (elements : list obj) :
    Forall (fun o => ~ is_instance o) elements -> instance_free (OList elements)
| free_none : instance_free ONone
| free_bool (b : bool) : instance_free (OBool b)
| free_int (n : Z) : instance_free (OInt n)
| free_float (x : R) : instance_free (OFloat x)
| free_str (s : string) : instance_free (OStr s)
| free_array (a : list R) : instance_free (OArray a)
| free_matrix (a : Np.ndarray) : instance_free (OMatrix a)
| free_state (state : DamageState) : instance_free (OState state).

Section Saved.

Variable py_str : obj -> string.

Lemma tolist1_encodable (a : list R) : json_encodable (tolist1 a).
Proof.
  unfold tolist1. constructor. apply Forall_fmap, Forall_true. constructor.
Qed.

Lemma convert_encodable (o : obj) :
  ~ is_instance o -> json_encodable (convert_to_serializable py_str o).
Proof.
  destruct o; intros Hfree; cbn [convert_to_serializable];
    try (by constructor).
  - apply tolist1_encodable.
  - unfold tolist2. constructor. apply Forall_fmap, Forall_true.
    intros row. apply tolist1_encodable.
Qed.

Lemma process_value_encodable (v : obj) :
  instance_free v -> json_encodable (process_value py_str v).
Proof.
  revert v. fix IH 1. intros v Hfree.
  destruct v as [| | | | |elements|entries| | | |attributes];
    cbn [process_value]; try (apply convert_encodable; cbn; tauto).
  - constructor. apply Forall_fmap.
    inversion Hfree as [|? Hall| | | | | | | |]; subst.
    eapply Forall_impl; [exact Hall|]. intros o Ho. by apply convert_encodable.
  - constructor. apply Forall_fmap.
    inversion Hfree as [? Hall| | | | | | | | |]; subst. clear Hfree.
    induction entries as [|[k x] rest IHrest]; [constructor|].
    inversion Hall as [|? ? Hx Hrest]; subst.
    constructor; [cbn; by apply IH|by apply IHrest].
  - inversion Hfree.
Qed.

(** X26: [process_dict] keeps the keys of a dictionary in their order,
    replaces a state by its name and an array by its nested lists, and
    writes a number that is stored directly as a value, or as an element
    of a list, as the text [str] gives it.  Provided the results hold no
    instance of a class, what it returns consists of the objects
    [json.dump] encodes. *)
Theorem process_dict_encodable (d : list (string * obj)) :
  instance_free (ODict d) ->
  json_encodable (ODict (process_dict py_str d))
  /\ (process_dict py_str d).*1 = d.*1
  /\ (forall k state, (k, OState state) ∈ d ->
        (k, OStr (name state)) ∈ process_dict py_str d)
  /\ (forall k a, (k, OMatrix a) ∈ d ->
        (k, OList ((fun row => OList (OFloat <$> row)) <$> a))
        ∈ process_dict py_str d)
  /\ (forall k x, (k, OFloat x) ∈ d ->
        (k, OStr (py_str (OFloat x))) ∈ process_dict py_str d)
  /\ (forall k xs, (k, OList (OFloat <$> xs)) ∈ d ->
        (k, OList ((fun x => OStr (py_str (OFloat x))) <$> xs))
        ∈ process_dict py_str d).
Proof.
  intros Hfree. split; [exact (process_value_encodable (ODict d) Hfree)|].
  unfold process_dict. split.
  - rewrite <- list_fmap_compose. by apply list_fmap_ext.
  - split_and!; intros k v Hin;
      apply list_elem_of_fmap; eexists; (split; [|exact Hin]); cbn; try done.
    f_equal. f_equal. by rewrite <- list_fmap_compose.
Qed.

End Saved.

(** A damage record as the evaluator stores it, with a state, a number,
    a list of numbers and an array. *)
Definition stored_damage : list (string * obj) :=
  [("time_history",
    ODict [("max_pier_drift", OFloat 0.012);
           ("max_deck_displacement", OArray [0.01; 0.04; 0]);
           ("overall_damage_state", OState MODERATE)]);
   ("periods", OList [OFloat 0.5; OFloat 0.3])].

Lemma process_dict_encodable_witness :
  json_encodable (ODict (process_dict (fun _ => "0.012") stored_damage))
  /\ (process_dict (fun _ => "0.012") stored_damage).*1 = stored_damage.*1.
Proof.
  destruct (process_dict_encodable (fun _ => "0.012") stored_damage)
    as (Hjson & Hkeys & _); [|by split].
  unfold stored_damage.
  repeat (first [progress cbn [snd is_instance] | constructor | tauto]).
Defined.

End ReportProps.

(* ===================================================================== *)
(** * Properties of the plain evaluator                                   *)
(* ===================================================================== *)

Module EvaluatorProps.
Import Results AnalysisRunner BridgeEvaluatorProps AssessmentProps.

(** X27: [Evaluator.run] isolates nothing: it raises exactly when the
    build of the model fails, the static solve fails, or the displacement
    the solve hands back has no index 1; when it raises after the solve,
    the static entry is stored all the same.  Its constructor raises
    [KeyError] for the first of "span", "height" and "material" that the
    configuration lacks. *)
Theorem evaluator_run_propagates (ops : engine) (raw : analysis_results) :
  ((exists raw' e, Evaluator.run ops raw = (raw', Raise e))
   <-> raises (build_static ops)
       \/ raises (static_solve ops)
       \/ exists disp_node5, static_solve ops = Ok disp_node5
                             /\ raises (getitem_int disp_node5 1))
  /\ (build_static ops = Ok () ->
      forall disp_node5, static_solve ops = Ok disp_node5 ->
        exists outcome,
          Evaluator.run ops raw
          = (set_static (static_entry disp_node5) raw, outcome))
  /\ (forall c,
        (exists c', Evaluator.init c = Ok c')
        <-> is_Some (BridgeEvaluator.span c) /\ is_Some (BridgeEvaluator.height c)
            /\ is_Some (BridgeEvaluator.material c)).
Proof.
  unfold Evaluator.run, run_static_analysis, raises.
  unfold catch, lift, modify, mbind, M_bind, mret, M_ret.
  split_and!.
  - destruct (build_static ops) as [[]|e]; [|split; by eauto].
    destruct (static_solve ops) as [v|e]; [|split; by eauto 6].
    destruct (getitem_int v 1) as [x|e] eqn:Hx.
    + split; [by intros (? & ? & [=])|].
      intros [[? [=]]|[[? [=]]|(v' & [= <-] & e & He)]]. congruence.
    + split; [|by eauto]. intros _. right; right. exists v. by eauto.
  - intros -> v ->. destruct (getitem_int v 1); by eexists.
  - intros c. unfold Evaluator.init, BridgeEvaluator.require.
    destruct (BridgeEvaluator.span c), (BridgeEvaluator.height c),
      (BridgeEvaluator.material c); cbn; split;
      try (by intros [? [=]]); try (by intros ([? ?] & [? ?] & [? ?]));
      by eauto.
Qed.

End EvaluatorProps.
